(** * Return calculations for wheel-strategy options

    A shallow embedding of [src/calculator.py] (class [ReturnCalculator]),
    of the pure utilities of [src/utils.py] and of the two computations
    of [src/options_chain.py] that work on values already fetched.

    Number model.  The calculator works on Python [float] and [int] values.
    A [float] is modelled by the real number it denotes and an [int] by an
    integer of [Z]; every operation is the exact one, so rounding,
    infinities and NaN are outside the model.  What the Python operators
    do besides computing is kept: [/] raises [ZeroDivisionError] on a zero
    divisor; [**] raises [OverflowError] when the power is larger than
    the largest float, and leaves the floats for a negative base with a
    fractional exponent (Python 3 returns a [complex] there).  A division
    by a non-zero literal ([/ 100], [/ 365.0]) cannot raise and is written
    as the plain quotient. *)

From Stdlib Require Import Reals Lra Lia ZArith.
From Stdlib Require Import Bool List Ascii String Permutation.
Import ListNotations.

Open Scope R_scope.

(** ** Python runtime: exceptions, results, numbers *)

(** The exceptions the arithmetic of the calculator can raise: from [/]
    and from [**]. *)
Inductive exn : Set :=
  | ZeroDivisionError
  | OverflowError.

(** Outcome of a call: a returned value or a raised exception. *)
Inductive result (A : Type) : Type :=
  | Ok (a : A)
  | Raise (e : exn).

Arguments Ok {A} a.
Arguments Raise {A} e.

Definition bind {A B : Type} (m : result A) (k : A -> result B) : result B :=
  match m with
  | Ok a => k a
  | Raise e => Raise e
  end.

Notation "x <- m ;; k" := (bind m (fun x => k))
  (at level 61, m at next level, right associativity).

(** What [x ** y] can evaluate to when [x] and [y] are floats. *)
Inductive pynum : Set :=
  | PyFloat (x : R)
  | PyComplex (re im : R).

(** [a / b] on floats. *)
Definition truediv (a b : R) : result R :=
  if Req_dec_T b 0 then Raise ZeroDivisionError else Ok (a / b).

(** The largest finite float, [sys.float_info.max]. *)
Definition float_max : R := (2 - / 2 ^ 52) * 2 ^ 1023.

(** [x ** y] on floats: [y == 0] gives [1.0]; a zero base raises
    [ZeroDivisionError] for a negative exponent and gives [0.0]
    otherwise; a power whose size [|x|^y] is beyond the largest float
    raises [OverflowError] (for a real and for a complex result alike); a
    negative base with an integral exponent keeps the sign of the parity;
    a negative base with a fractional exponent gives the principal
    complex power [|x|^y * (cos (pi y) + i sin (pi y))]. *)
Definition float_pow (x y : R) : result pynum :=
  if Req_dec_T y 0 then Ok (PyFloat 1)
  else if Req_dec_T x 0 then
    if Rlt_dec y 0 then Raise ZeroDivisionError else Ok (PyFloat 0)
  else if Rgt_dec (Rpower (Rabs x) y) float_max then Raise OverflowError
  else if Rlt_dec 0 x then Ok (PyFloat (Rpower x y))
  else if Req_dec_T (frac_part y) 0 then
    Ok (PyFloat (if Z.even (Int_part y) then Rpower (- x) y
                 else - Rpower (- x) y))
  else Ok (PyComplex (Rpower (- x) y * cos (PI * y))
                     (Rpower (- x) y * sin (PI * y))).

(** [a - b] and [a * b] with a float right operand. *)
Definition num_sub (a : pynum) (b : R) : pynum :=
  match a with
  | PyFloat x => PyFloat (x - b)
  | PyComplex re im => PyComplex (re - b) im
  end.

Definition num_mul (a : pynum) (b : R) : pynum :=
  match a with
  | PyFloat x => PyFloat (x * b)
  | PyComplex re im => PyComplex (re * b) (im * b)
  end.

(** ** Result dictionaries *)

(** The dictionary returned by [calculate_put_return]. *)
Module PutMetrics.
Record t : Type := mk {
  capital_required : R;
  premium_received : R;
  return_pct : R;
  annualized_return : pynum;
  breakeven_price : R;
  downside_protection_pct : R;
  days_to_expiration : Z
}.
End PutMetrics.

(** The dictionary returned by [calculate_call_return]. *)
Module CallMetrics.
Record t : Type := mk {
  capital_invested : R;
  premium_received : R;
  potential_capital_gain : R;
  total_return : R;
  premium_return_pct : R;
  total_return_pct : R;
  annualized_return : pynum;
  upside_capture_pct : R;
  max_profit_price : R;
  days_to_expiration : Z
}.
End CallMetrics.

(** The dictionary returned by [calculate_wheel_cycle_return];
    [call_phase] is [None] in the put-only branch. *)
Module WheelMetrics.
Record t : Type := mk {
  put_phase : PutMetrics.t;
  call_phase : option CallMetrics.t;
  total_premium : R;
  total_return_pct : R;
  annualized_cycle_return : pynum;
  total_days : Z;
  capital_required : R
}.
End WheelMetrics.

(** ** The calculator *)

(** Default of the [contract_size] keyword argument. *)
Definition default_contract_size : Z := 100.

Definition calculate_put_return
    (stock_price strike_price premium : R)
    (days_to_expiration contract_size : Z) : result PutMetrics.t :=
  let capital_required := strike_price * IZR contract_size in
  let total_premium := premium * IZR contract_size in
  q <- truediv total_premium capital_required ;;
  let return_pct := q * 100 in
  annualized_return <-
    (if (days_to_expiration >? 0)%Z then
       periods_per_year <- truediv 365 (IZR days_to_expiration) ;;
       p <- float_pow (1 + return_pct / 100) periods_per_year ;;
       Ok (num_mul (num_sub p 1) 100)
     else Ok (PyFloat 0)) ;;
  let breakeven := strike_price - premium in
  d <- truediv premium stock_price ;;
  let downside_protection_pct := d * 100 in
  Ok (PutMetrics.mk capital_required total_premium return_pct
        annualized_return breakeven downside_protection_pct
        days_to_expiration).

Definition calculate_call_return
    (stock_price strike_price premium cost_basis : R)
    (days_to_expiration contract_size : Z) : result CallMetrics.t :=
  let capital_invested := cost_basis * IZR contract_size in
  let total_premium := premium * IZR contract_size in
  q <- truediv total_premium capital_invested ;;
  let premium_return_pct := q * 100 in
  let '(capital_gain, total_return) :=
    if Rgt_dec strike_price cost_basis then
      let capital_gain := (strike_price - cost_basis) * IZR contract_size in
      (capital_gain, total_premium + capital_gain)
    else (0, total_premium) in
  q' <- truediv total_return capital_invested ;;
  let total_return_pct := q' * 100 in
  annualized_return <-
    (if (days_to_expiration >? 0)%Z then
       periods_per_year <- truediv 365 (IZR days_to_expiration) ;;
       p <- float_pow (1 + total_return_pct / 100) periods_per_year ;;
       Ok (num_mul (num_sub p 1) 100)
     else Ok (PyFloat 0)) ;;
  let max_profit_price := strike_price + premium in
  u <- truediv (max_profit_price - stock_price) stock_price ;;
  let upside_capture_pct := u * 100 in
  Ok (CallMetrics.mk capital_invested total_premium capital_gain
        total_return premium_return_pct total_return_pct
        annualized_return upside_capture_pct max_profit_price
        days_to_expiration).

Definition calculate_wheel_cycle_return
    (stock_price put_strike put_premium call_strike call_premium : R)
    (put_dte call_dte : Z) (assignment_assumed : bool)
    : result WheelMetrics.t :=
  put_returns <- calculate_put_return stock_price put_strike put_premium
                   put_dte default_contract_size ;;
  if assignment_assumed then
    let cost_basis := put_strike - put_premium in
    call_returns <- calculate_call_return put_strike call_strike
                      call_premium cost_basis call_dte
                      default_contract_size ;;
    let total_premium :=
      PutMetrics.premium_received put_returns
      + CallMetrics.premium_received call_returns in
    let total_days := (put_dte + call_dte)%Z in
    let capital_required := put_strike * 100 in
    q <- truediv total_premium capital_required ;;
    let total_return_pct := q * 100 in
    annualized_cycle_return <-
      (if (total_days >? 0)%Z then
         periods_per_year <- truediv 365 (IZR total_days) ;;
         p <- float_pow (1 + total_return_pct / 100) periods_per_year ;;
         Ok (num_mul (num_sub p 1) 100)
       else Ok (PyFloat 0)) ;;
    Ok (WheelMetrics.mk put_returns (Some call_returns) total_premium
          total_return_pct annualized_cycle_return total_days
          capital_required)
  else
    Ok (WheelMetrics.mk put_returns None
          (PutMetrics.premium_received put_returns)
          (PutMetrics.return_pct put_returns)
          (PutMetrics.annualized_return put_returns)
          put_dte
          (PutMetrics.capital_required put_returns)).

(** [calculate_probability_of_profit].  The standard normal distribution
    function [scipy.stats.norm.cdf] is a library routine outside the
    repository; the calculator is stated for any such function, and the
    two imports that open the body are taken to succeed. *)
Section ProbabilityOfProfit.

Variable norm_cdf : R -> R.

Definition calculate_probability_of_profit
    (stock_price breakeven_price implied_volatility : R)
    (days_to_expiration : Z) : R :=
  if (days_to_expiration <=? 0)%Z then
    if Rge_dec stock_price breakeven_price then 1 else 0
  else
    let time_fraction := IZR days_to_expiration / 365 in
    let expected_move :=
      stock_price * implied_volatility * sqrt time_fraction in
    let z_score :=
      if Rgt_dec expected_move 0
      then (stock_price - breakeven_price) / expected_move
      else 0 in
    norm_cdf z_score.

End ProbabilityOfProfit.

(** [annualize_return] of [src/utils.py]: the compounding formula as a
    function of its own. *)
Definition annualize_return (return_pct : R) (days : Z) : result pynum :=
  if (days <=? 0)%Z then Ok (PyFloat 0)
  else
    periods_per_year <- truediv 365 (IZR days) ;;
    p <- float_pow (1 + return_pct / 100) periods_per_year ;;
    Ok (num_mul (num_sub p 1) 100).

(** The two values set by the [if strike_price > cost_basis] statement of
    [calculate_call_return]. *)
Definition call_capital_gain (k c : R) (n : Z) : R :=
  if Rgt_dec k c then (k - c) * IZR n else 0.

Definition call_total_return (k p c : R) (n : Z) : R :=
  if Rgt_dec k c then p * IZR n + (k - c) * IZR n else p * IZR n.

(** The annualisation as the specification words it: over a positive
    number of days, [((1 + pct/100) ^ (365/days) - 1) * 100]; otherwise
    zero. *)
Definition compounds_to (pct : R) (days : Z) (a : pynum) : Prop :=
  ((days > 0)%Z ->
     exists q, float_pow (1 + pct / 100) (365 / IZR days) = Ok q
               /\ a = num_mul (num_sub q 1) 100)
  /\ ((days <= 0)%Z -> a = PyFloat 0).

(** ** The risk estimators of the calculator *)



Definition calculate_expected_value
    (premium max_loss probability_of_profit : R) (contract_size : Z) : R :=
  let total_premium := premium * IZR contract_size in
  let total_max_loss := max_loss * IZR contract_size in
  probability_of_profit * total_premium
  - (1 - probability_of_profit) * total_max_loss.

(** ** Utilities of [src/utils.py] *)

(** [calculate_iv_rank].  The builtins [min] and [max] run over the
    history from its first element; the division is guarded by the test
    on [max_iv == min_iv] above it. *)
Definition calculate_iv_rank (current_iv : R) (iv_history : list R) : R :=
  match iv_history with
  | [] => 50
  | [_] => 50
  | x :: xs =>
      let min_iv := fold_left Rmin xs x in
      let max_iv := fold_left Rmax xs x in
      if Req_dec_T max_iv min_iv then 50
      else
        let iv_rank := (current_iv - min_iv) / (max_iv - min_iv) * 100 in
        Rmax 0 (Rmin 100 iv_rank)
  end.

(** Text.  A [str] is modelled by a string of ASCII code points; the
    predicates and case maps below are those of Python on such
    characters. *)
Definition isspace (c : ascii) : bool :=
  let n := nat_of_ascii c in
  ((9 <=? n) && (n <=? 13) || (28 <=? n) && (n <=? 32))%nat.

Definition isalnum_char (c : ascii) : bool :=
  let n := nat_of_ascii c in
  ((48 <=? n) && (n <=? 57) || (65 <=? n) && (n <=? 90)
   || (97 <=? n) && (n <=? 122))%nat.

Definition upper_char (c : ascii) : ascii :=
  let n := nat_of_ascii c in
  if ((97 <=? n) && (n <=? 122))%nat then ascii_of_nat (n - 32) else c.

Definition lower_char (c : ascii) : ascii :=
  let n := nat_of_ascii c in
  if ((65 <=? n) && (n <=? 90))%nat then ascii_of_nat (n + 32) else c.

Fixpoint upper (s : string) : string :=
  match s with
  | EmptyString => EmptyString
  | String c s' => String (upper_char c) (upper s')
  end.

Fixpoint lower (s : string) : string :=
  match s with
  | EmptyString => EmptyString
  | String c s' => String (lower_char c) (lower s')
  end.

Fixpoint lstrip (s : string) : string :=
  match s with
  | EmptyString => EmptyString
  | String c s' => if isspace c then lstrip s' else s
  end.

Fixpoint rstrip (s : string) : string :=
  match s with
  | EmptyString => EmptyString
  | String c s' =>
      match rstrip s' with
      | EmptyString => if isspace c then EmptyString else String c EmptyString
      | r => String c r
      end
  end.

Definition strip (s : string) : string := rstrip (lstrip s).

Fixpoint all_alnum (s : string) : bool :=
  match s with
  | EmptyString => true
  | String c s' => isalnum_char c && all_alnum s'
  end.

(** [s.isalnum()]: at least one character and all of them alphanumeric. *)
Definition isalnum (s : string) : bool :=
  match s with
  | EmptyString => false
  | _ => all_alnum s
  end.

(** ['.' in s]. *)
Fixpoint contains_dot (s : string) : bool :=
  match s with
  | EmptyString => false
  | String c s' => Ascii.eqb c "."%char || contains_dot s'
  end.

(** Outcome of a utility that can raise [ValueError]. *)
Inductive checked (A : Type) : Type :=
  | Returned (a : A)
  | ValueError (message : string).

Arguments Returned {A} a.
Arguments ValueError {A} message.

Definition validate_ticker (ticker : string) : checked string :=
  match ticker with
  | EmptyString => ValueError "Ticker cannot be empty"
  | _ =>
      let ticker := upper (strip ticker) in
      if negb (isalnum ticker) && negb (contains_dot ticker)
      then ValueError ("Invalid ticker format: " ++ ticker)
      else Returned ticker
  end.

(** Dates.  A naive [datetime] is the count of microseconds since the
    origin of the calendar; the difference of two of them is a
    [timedelta] whose [days] is the floor of the quotient by a day. *)
Definition microseconds_per_day : Z := 86400000000.

(** The argument of [calculate_days_to_expiration]: a [datetime], or the
    string the [isinstance] test admits. *)
Inductive expiration_arg : Type :=
  | ExpirationString (s : string)
  | ExpirationDatetime (t : Z).

(** [calculate_days_to_expiration].  [datetime.strptime] with the format
    ['%Y-%m-%d'] and the clock [datetime.now ()] are outside the
    repository and are parameters. *)
Section DaysToExpiration.

Variable strptime : string -> checked Z.
Variable now : Z.

Definition calculate_days_to_expiration
    (expiration_date : expiration_arg) : checked Z :=
  let parsed :=
    match expiration_date with
    | ExpirationString s => strptime s
    | ExpirationDatetime t => Returned t
    end in
  match parsed with
  | ValueError m => ValueError m
  | Returned expiration_date =>
      let today := (now - now mod microseconds_per_day)%Z in
      let delta := (expiration_date - today)%Z in
      Returned (Z.max 0 (delta / microseconds_per_day))
  end.

End DaysToExpiration.

(** Calendar.  For [get_next_monthly_expiration] a [datetime] is kept by
    its fields; [weekday], [replace] and the addition of a [timedelta] of
    whole days are those of Python's proleptic Gregorian calendar (years
    1 to 9999, Monday is weekday 0). *)
Module Datetime.
Record t : Type := mk {
  year : Z;
  month : Z;
  day : Z;
  time_of_day : Z
}.
End Datetime.

Definition is_leap (y : Z) : bool :=
  ((y mod 4 =? 0) && (negb (y mod 100 =? 0) || (y mod 400 =? 0)))%Z.

Definition days_in_month (y m : Z) : Z :=
  if (m =? 2)%Z then (if is_leap y then 29 else 28)%Z
  else if ((m =? 4) || (m =? 6) || (m =? 9) || (m =? 11))%Z then 30%Z
  else 31%Z.

Definition days_before_year (y : Z) : Z :=
  let y1 := (y - 1)%Z in
  (y1 * 365 + y1 / 4 - y1 / 100 + y1 / 400)%Z.

Fixpoint days_in_months (y : Z) (months : nat) : Z :=
  match months with
  | O => 0%Z
  | S k => (days_in_months y k + days_in_month y (Z.of_nat (S k)))%Z
  end.

Definition days_before_month (y m : Z) : Z :=
  days_in_months y (Z.to_nat (m - 1)).

Definition toordinal (d : Datetime.t) : Z :=
  (days_before_year (Datetime.year d)
   + days_before_month (Datetime.year d) (Datetime.month d)
   + Datetime.day d)%Z.

Definition weekday (d : Datetime.t) : Z := ((toordinal d + 6) mod 7)%Z.

Definition next_day (d : Datetime.t) : Datetime.t :=
  if (Datetime.day d <? days_in_month (Datetime.year d) (Datetime.month d))%Z
  then Datetime.mk (Datetime.year d) (Datetime.month d)
         (Datetime.day d + 1) (Datetime.time_of_day d)
  else if (Datetime.month d <? 12)%Z
  then Datetime.mk (Datetime.year d) (Datetime.month d + 1) 1
         (Datetime.time_of_day d)
  else Datetime.mk (Datetime.year d + 1) 1 1 (Datetime.time_of_day d).

(** [d + timedelta (days=k)]. *)
Fixpoint add_days (k : nat) (d : Datetime.t) : Datetime.t :=
  match k with
  | O => d
  | S k' => add_days k' (next_day d)
  end.

(** [get_next_monthly_expiration]; [now] is the clock read when no base
    date is given.  [replace] refuses a year past 9999. *)
Definition get_next_monthly_expiration
    (now : Datetime.t) (base_date : option Datetime.t)
    : checked Datetime.t :=
  let base_date :=
    match base_date with
    | None => now
    | Some d => d
    end in
  let replaced :=
    if (Datetime.month base_date =? 12)%Z then
      if (Datetime.year base_date + 1 >? 9999)%Z
      then ValueError "year 10000 is out of range"
      else Returned (Datetime.mk (Datetime.year base_date + 1) 1 1
                       (Datetime.time_of_day base_date))
    else Returned (Datetime.mk (Datetime.year base_date)
                     (Datetime.month base_date + 1) 1
                     (Datetime.time_of_day base_date)) in
  match replaced with
  | ValueError m => ValueError m
  | Returned next_month =>
      let first_day_weekday := weekday next_month in
      let days_until_friday := ((4 - first_day_weekday) mod 7)%Z in
      let third_friday :=
        add_days (Z.to_nat (days_until_friday + 14)) next_month in
      Returned third_friday
  end.

(** ** The option chain of [src/options_chain.py] *)

(** The dictionary of [get_option_greeks_approximation]. *)
Module Greeks.
Record t : Type := mk {
  delta : R;
  gamma : R;
  theta : R;
  vega : R
}.
End Greeks.

(** [get_option_greeks_approximation].  [current_price] is what
    [self.get_current_price ()] answers (a fetch from the data provider);
    the empty dictionary is [None]. *)
Definition get_option_greeks_approximation
    (current_price : option R) (option_type : string) (strike : R)
    (expiration_date : string) (stock_price : option R)
    : result (option Greeks.t) :=
  let stock_price :=
    match stock_price with
    | None => current_price
    | Some p => Some p
    end in
  match stock_price with
  | None => Ok None
  | Some stock_price =>
      if Req_dec_T stock_price 0 then Ok None
      else
        moneyness <- truediv stock_price strike ;;
        let delta :=
          if String.eqb (lower option_type) "call" then
            if Rgt_dec moneyness (11 / 10) then 75 / 100
            else if Rgt_dec moneyness 1 then 50 / 100
            else if Rgt_dec moneyness (95 / 100) then 30 / 100
            else 15 / 100
          else
            if Rlt_dec moneyness (9 / 10) then - (75 / 100)
            else if Rlt_dec moneyness 1 then - (50 / 100)
            else if Rlt_dec moneyness (105 / 100) then - (30 / 100)
            else - (15 / 100) in
        Ok (Some (Greeks.mk delta (5 / 100) (- (2 / 100)) (10 / 100)))
  end.

(** The builtin [min (items, key=...)]: the first item whose key is
    smallest. *)
Fixpoint min_by_key (key : R -> R) (best : R) (items : list R) : R :=
  match items with
  | [] => best
  | x :: xs =>
      if Rlt_dec (key x) (key best) then min_by_key key x xs
      else min_by_key key best xs
  end.

(** [get_atm_strike].  [current_price] is the answer of
    [self.get_current_price ()] and [strikes] the [strike] column of the
    calls fetched for the expiration (no rows when the frame is empty). *)
Definition get_atm_strike
    (current_price : option R) (strikes : list R) : option R :=
  match current_price with
  | None => None
  | Some stock_price =>
      if Req_dec_T stock_price 0 then None
      else
        match strikes with
        | [] => None
        | x :: xs =>
            Some (min_by_key (fun x => Rabs (x - stock_price)) x xs)
        end
  end.

(** A distribution function for the examples: the ramp from 0 to 1 over
    [[-1, 1]]. *)
Definition ramp_cdf (z : R) : R := Rmax 0 (Rmin 1 ((z + 1) / 2)).

(** A string that does not start with white space. *)
Definition starts_clean (s : string) : bool :=
  match s with
  | EmptyString => true
  | String c _ => negb (isspace c)
  end.

(** ** Facts about the runtime operations *)

Lemma truediv_ok (a b : R) : b <> 0 -> truediv a b = Ok (a / b).
Proof.
  intros Hb. unfold truediv.
  destruct (Req_dec_T b 0) as [E | _]; [contradiction | reflexivity].
Qed.

Lemma truediv_zero (a b : R) : b = 0 -> truediv a b = Raise ZeroDivisionError.
Proof.
  intros Hb. unfold truediv.
  destruct (Req_dec_T b 0) as [_ | N]; [reflexivity | contradiction].
Qed.

Lemma truediv_inv (a b q : R) : truediv a b = Ok q -> b <> 0 /\ q = a / b.
Proof.
  unfold truediv. destruct (Req_dec_T b 0) as [E | N]; intros H.
  - discriminate H.
  - injection H as <-. split; [exact N | reflexivity].
Qed.

Lemma bind_inv {A B : Type} (m : result A) (k : A -> result B) (b : B) :
  bind m k = Ok b -> exists a, m = Ok a /\ k a = Ok b.
Proof.
  destruct m as [a | e]; simpl; intros H.
  - exists a. split; [reflexivity | exact H].
  - discriminate H.
Qed.

(** Powers taken by the annualisation stay far below the largest float
    when the base is at most 2 in size: the exponent is at most 365. *)
Lemma float_max_above : 2 ^ 365 <= float_max.
Proof.
  unfold float_max.
  assert (H52 : 1 <= 2 ^ 52) by (apply pow_R1_Rle; lra).
  assert (Hi : / 2 ^ 52 <= 1).
  { rewrite <- Rinv_1. apply Rinv_le_contravar; lra. }
  assert (H1 : 2 ^ 365 <= 2 ^ 1023) by (apply Rle_pow; [lra | lia]).
  assert (H2 : 0 < 2 ^ 1023) by (apply pow_lt; lra).
  nra.
Qed.

Lemma Rpower_below_float_max (a y : R) :
  0 < a <= 2 -> 0 < y <= 365 -> Rpower a y <= float_max.
Proof.
  intros [Ha Ha2] [Hy Hy2].
  apply Rle_trans with (2 ^ 365); [| apply float_max_above].
  assert (E : Rpower 2 365 = 2 ^ 365).
  { rewrite <- (Rpower_pow 365 2) by lra. f_equal.
    rewrite INR_IZR_INZ. reflexivity. }
  rewrite <- E.
  apply Rle_trans with (Rpower 2 y).
  - apply Rle_Rpower_l; lra.
  - apply Rle_Rpower; lra.
Qed.

(** On a positive base the power is the real power, unless it
    overflows. *)
Lemma float_pow_pos_base (x y : R) :
  0 < x -> 0 < y -> Rpower x y <= float_max ->
  float_pow x y = Ok (PyFloat (Rpower x y)).
Proof.
  intros Hx Hy Hm. unfold float_pow.
  destruct (Req_dec_T y 0) as [E | _]; [lra |].
  destruct (Req_dec_T x 0) as [E | _]; [lra |].
  rewrite (Rabs_right x) by lra.
  destruct (Rgt_dec (Rpower x y) float_max) as [G | _]; [lra |].
  destruct (Rlt_dec 0 x) as [_ | N]; [reflexivity | contradiction].
Qed.

Lemma float_pow_pos_base_inv (x y : R) (q : pynum) :
  0 < x -> 0 < y -> float_pow x y = Ok q ->
  q = PyFloat (Rpower x y) /\ Rpower x y <= float_max.
Proof.
  intros Hx Hy. unfold float_pow.
  destruct (Req_dec_T y 0) as [E | _]; [lra |].
  destruct (Req_dec_T x 0) as [E | _]; [lra |].
  rewrite (Rabs_right x) by lra.
  destruct (Rgt_dec (Rpower x y) float_max) as [G | G]; [discriminate |].
  destruct (Rlt_dec 0 x) as [_ | N]; [| contradiction].
  intros H. injection H as <-. split; [reflexivity | lra].
Qed.

Lemma float_pow_zero_base (y : R) : 0 < y -> float_pow 0 y = Ok (PyFloat 0).
Proof.
  intros Hy. unfold float_pow.
  destruct (Req_dec_T y 0) as [E | _]; [lra |].
  destruct (Req_dec_T 0 0) as [_ | N]; [| contradiction].
  destruct (Rlt_dec y 0) as [L | _]; [lra | reflexivity].
Qed.

(** A base of size at most 2 under an exponent in (0, 365] does not
    raise. *)
Lemma float_pow_small_base (x y : R) :
  - 2 <= x <= 2 -> 0 < y <= 365 -> exists p, float_pow x y = Ok p.
Proof.
  intros Hx Hy. unfold float_pow.
  destruct (Req_dec_T y 0) as [E | _]; [lra |].
  destruct (Req_dec_T x 0) as [_ | Hx0].
  - destruct (Rlt_dec y 0) as [L | _]; [lra | eauto].
  - assert (Ha : 0 < Rabs x <= 2).
    { split; [apply Rabs_pos_lt; exact Hx0 | apply Rabs_le; lra]. }
    pose proof (Rpower_below_float_max _ _ Ha Hy) as Hm.
    destruct (Rgt_dec (Rpower (Rabs x) y) float_max) as [G | _]; [lra |].
    destruct (Rlt_dec 0 x); [eauto |].
    destruct (Req_dec_T (frac_part y) 0); eauto.
Qed.


Lemma IZR_gt_0 (d : Z) : (d > 0)%Z -> 0 < IZR d.
Proof. intros H. apply IZR_lt. lia. Qed.

Lemma periods_per_year_pos (d : Z) : (d > 0)%Z -> 0 < 365 / IZR d.
Proof.
  intros H. apply Rdiv_lt_0_compat; [lra | apply IZR_gt_0; exact H].
Qed.

Lemma periods_per_year_bounds (d : Z) : (d > 0)%Z -> 0 < 365 / IZR d <= 365.
Proof.
  intros H. split; [apply periods_per_year_pos; exact H |].
  assert (H1 : 1 <= IZR d) by (apply IZR_le; lia).
  apply Rmult_le_reg_r with (IZR d); [lra |].
  unfold Rdiv. rewrite Rmult_assoc, Rinv_l by lra. nra.
Qed.

(** The exponent of a thirty-day annualisation is not integral. *)
Lemma frac_part_365_30 : frac_part (365 / 30) <> 0.
Proof.
  destruct (Int_part_frac_part_spec (365 / 30) 12 (1 / 6)) as [_ Hf];
    [lra | lra |].
  rewrite <- Hf. lra.
Qed.

(** A negative base under a fractional exponent leaves the floats. *)
Lemma float_pow_neg_frac (x y : R) :
  x < 0 -> frac_part y <> 0 -> Rpower (- x) y <= float_max ->
  float_pow x y = Ok (PyComplex (Rpower (- x) y * cos (PI * y))
                                (Rpower (- x) y * sin (PI * y))).
Proof.
  intros Hx Hy Hm. unfold float_pow.
  destruct (Req_dec_T y 0) as [E | _].
  { exfalso. apply Hy. rewrite E. apply fp_R0. }
  destruct (Req_dec_T x 0) as [E | _]; [lra |].
  rewrite (Rabs_left x) by lra.
  destruct (Rgt_dec (Rpower (- x) y) float_max) as [G | _]; [lra |].
  destruct (Rlt_dec 0 x) as [L | _]; [lra |].
  destruct (Req_dec_T (frac_part y) 0) as [E | _];
    [contradiction | reflexivity].
Qed.

(** The annualisation block that the three calculator functions inline is
    [annualize_return]. *)
Lemma annualize_block (pct : R) (d : Z) :
  (if (d >? 0)%Z then
     periods_per_year <- truediv 365 (IZR d) ;;
     p <- float_pow (1 + pct / 100) periods_per_year ;;
     Ok (num_mul (num_sub p 1) 100)
   else Ok (PyFloat 0)) = annualize_return pct d.
Proof.
  unfold annualize_return.
  destruct (Z.gtb_spec d 0), (Z.leb_spec d 0); try lia; reflexivity.
Qed.

(** The annualisation returns when no days are left, and when the
    compounding base is at most 2 in size (a return between -300 and 100
    percent). *)
Lemma annualize_return_ok (pct : R) (d : Z) :
  (d <= 0)%Z \/ - 2 <= 1 + pct / 100 <= 2 ->
  exists a, annualize_return pct d = Ok a.
Proof.
  intros Hok. unfold annualize_return.
  destruct (Z.leb_spec d 0) as [H | H]; [eauto |].
  destruct Hok as [Hd | Hb]; [lia |].
  assert (Hd : 0 < IZR d) by (apply IZR_gt_0; lia).
  rewrite truediv_ok by lra. simpl.
  destruct (float_pow_small_base (1 + pct / 100) (365 / IZR d)) as [p Hp].
  - exact Hb.
  - apply periods_per_year_bounds. lia.
  - rewrite Hp. simpl. eauto.
Qed.


Lemma annualize_return_spec (pct : R) (d : Z) (a : pynum) :
  annualize_return pct d = Ok a ->
  ((d > 0)%Z ->
     exists p, float_pow (1 + pct / 100) (365 / IZR d) = Ok p
               /\ a = num_mul (num_sub p 1) 100)
  /\ ((d <= 0)%Z -> a = PyFloat 0).
Proof.
  unfold annualize_return. destruct (Z.leb_spec d 0) as [H | H]; intros E.
  - split; [lia |]. intros _. injection E as <-. reflexivity.
  - split; [| lia]. intros _.
    assert (Hd : 0 < IZR d) by (apply IZR_gt_0; lia).
    rewrite truediv_ok in E by lra. simpl in E.
    apply bind_inv in E as (p & Hp & E). injection E as <-.
    exists p. split; [exact Hp | reflexivity].
Qed.

(** ** Shape of the results *)

(** The put return in percent is the premium over the strike. *)
Lemma put_return_pct_ratio (p k N : R) :
  k * N <> 0 -> p * N / (k * N) * 100 = p / k * 100.
Proof.
  intros H. assert (k <> 0 /\ N <> 0) as [Hk HN] by (split; nra).
  field. split; assumption.
Qed.

(** The call's total return in percent, with the contract size
    cancelled. *)
Lemma call_total_return_pct_ratio (k p c N : R) (n : Z) :
  N = IZR n -> c * N <> 0 ->
  call_total_return k p c n / (c * N) * 100
  = (p + (if Rgt_dec k c then k - c else 0)) / c * 100.
Proof.
  intros -> H. assert (c <> 0 /\ IZR n <> 0) as [Hc HN] by (split; nra).
  unfold call_total_return. destruct (Rgt_dec k c); field; split; assumption.
Qed.

(** [calculate_put_return] unfolded once, with the annualisation named. *)
Lemma calculate_put_return_eq (sp k p : R) (d n : Z) :
  calculate_put_return sp k p d n =
    (q <- truediv (p * IZR n) (k * IZR n) ;;
     a <- annualize_return (q * 100) d ;;
     u <- truediv p sp ;;
     Ok (PutMetrics.mk (k * IZR n) (p * IZR n) (q * 100) a (k - p)
           (u * 100) d)).
Proof.
  unfold calculate_put_return.
  destruct (truediv (p * IZR n) (k * IZR n)) as [q | e]; simpl;
    [| reflexivity].
  rewrite annualize_block. reflexivity.
Qed.

Lemma calculate_put_return_inv (sp k p : R) (d n : Z) (r : PutMetrics.t) :
  calculate_put_return sp k p d n = Ok r ->
  k * IZR n <> 0 /\ sp <> 0
  /\ annualize_return (p * IZR n / (k * IZR n) * 100) d
     = Ok (PutMetrics.annualized_return r)
  /\ r = PutMetrics.mk (k * IZR n) (p * IZR n)
           (p * IZR n / (k * IZR n) * 100)
           (PutMetrics.annualized_return r) (k - p) (p / sp * 100) d.
Proof.
  rewrite calculate_put_return_eq. intros H.
  apply bind_inv in H as (q & Hq & H). apply truediv_inv in Hq as [Hc ->].
  apply bind_inv in H as (a & Ha & H).
  apply bind_inv in H as (u & Hu & H). apply truediv_inv in Hu as [Hs ->].
  injection H as <-. simpl. auto.
Qed.

(** The put returns when its two denominators are not zero and the
    annualisation does not overflow: no days left, or a premium between
    -3 and 1 times the strike. *)
Lemma calculate_put_return_ok (sp k p : R) (d n : Z) :
  k * IZR n <> 0 -> sp <> 0 ->
  (d <= 0)%Z \/ - 2 <= 1 + p / k <= 2 ->
  exists r, calculate_put_return sp k p d n = Ok r.
Proof.
  intros Hc Hs Hb. rewrite calculate_put_return_eq.
  rewrite (truediv_ok _ _ Hc). simpl.
  destruct (annualize_return_ok (p * IZR n / (k * IZR n) * 100) d)
    as [a Ha].
  { rewrite (put_return_pct_ratio _ _ _ Hc).
    destruct Hb as [Hb | Hb]; [left; exact Hb | right; lra]. }
  rewrite Ha. simpl. rewrite (truediv_ok _ _ Hs). simpl. eauto.
Qed.

Lemma calculate_call_return_eq (sp k p c : R) (d n : Z) :
  calculate_call_return sp k p c d n =
    (q <- truediv (p * IZR n) (c * IZR n) ;;
     q' <- truediv (call_total_return k p c n) (c * IZR n) ;;
     a <- annualize_return (q' * 100) d ;;
     u <- truediv (k + p - sp) sp ;;
     Ok (CallMetrics.mk (c * IZR n) (p * IZR n) (call_capital_gain k c n)
           (call_total_return k p c n) (q * 100) (q' * 100) a (u * 100)
           (k + p) d)).
Proof.
  unfold calculate_call_return, call_total_return, call_capital_gain.
  destruct (truediv (p * IZR n) (c * IZR n)) as [q | e]; simpl;
    [| reflexivity].
  destruct (Rgt_dec k c) as [G | G];
    (match goal with
     | |- bind ?m _ = _ => destruct m as [q' | e]; simpl; [| reflexivity]
     end);
    rewrite annualize_block; reflexivity.
Qed.

Lemma calculate_call_return_inv
    (sp k p c : R) (d n : Z) (r : CallMetrics.t) :
  calculate_call_return sp k p c d n = Ok r ->
  c * IZR n <> 0 /\ sp <> 0
  /\ annualize_return (call_total_return k p c n / (c * IZR n) * 100) d
     = Ok (CallMetrics.annualized_return r)
  /\ r = CallMetrics.mk (c * IZR n) (p * IZR n) (call_capital_gain k c n)
           (call_total_return k p c n)
           (p * IZR n / (c * IZR n) * 100)
           (call_total_return k p c n / (c * IZR n) * 100)
           (CallMetrics.annualized_return r)
           ((k + p - sp) / sp * 100) (k + p) d.
Proof.
  rewrite calculate_call_return_eq. intros H.
  apply bind_inv in H as (q & Hq & H). apply truediv_inv in Hq as [Hc ->].
  apply bind_inv in H as (q' & Hq' & H). apply truediv_inv in Hq' as [_ ->].
  apply bind_inv in H as (a & Ha & H).
  apply bind_inv in H as (u & Hu & H). apply truediv_inv in Hu as [Hs ->].
  injection H as <-. simpl. auto.
Qed.

(** The call returns when its two denominators are not zero and the
    annualisation does not overflow: no days left, or a compounding base
    at most 2 in size with and without the capital gain. *)
Lemma calculate_call_return_ok (sp k p c : R) (d n : Z) :
  c * IZR n <> 0 -> sp <> 0 ->
  (d <= 0)%Z
  \/ (- 2 <= 1 + p / c <= 2 /\ - 2 <= 1 + (p + (k - c)) / c <= 2) ->
  exists r, calculate_call_return sp k p c d n = Ok r.
Proof.
  intros Hc Hs Hb. rewrite calculate_call_return_eq.
  rewrite !(truediv_ok _ _ Hc). simpl.
  destruct (annualize_return_ok
              (call_total_return k p c n / (c * IZR n) * 100) d) as [a Ha].
  { rewrite (call_total_return_pct_ratio _ _ _ _ _ eq_refl Hc).
    destruct Hb as [Hb | [Hb1 Hb2]]; [left; exact Hb | right].
    destruct (Rgt_dec k c).
    - lra.
    - replace (p + 0) with p by lra. lra. }
  rewrite Ha. simpl. rewrite (truediv_ok _ _ Hs). simpl. eauto.
Qed.

(** The wheel cycle with the inlined annualisation named. *)
Lemma calculate_wheel_cycle_return_eq
    (sp ps pp cs cp : R) (pd cd : Z) (b : bool) :
  calculate_wheel_cycle_return sp ps pp cs cp pd cd b =
    (put_returns <- calculate_put_return sp ps pp pd default_contract_size ;;
     if b then
       call_returns <- calculate_call_return ps cs cp (ps - pp) cd
                         default_contract_size ;;
       q <- truediv (PutMetrics.premium_received put_returns
                     + CallMetrics.premium_received call_returns)
                    (ps * 100) ;;
       a <- annualize_return (q * 100) (pd + cd) ;;
       Ok (WheelMetrics.mk put_returns (Some call_returns)
             (PutMetrics.premium_received put_returns
              + CallMetrics.premium_received call_returns)
             (q * 100) a (pd + cd) (ps * 100))
     else
       Ok (WheelMetrics.mk put_returns None
             (PutMetrics.premium_received put_returns)
             (PutMetrics.return_pct put_returns)
             (PutMetrics.annualized_return put_returns)
             pd
             (PutMetrics.capital_required put_returns))).
Proof.
  unfold calculate_wheel_cycle_return.
  destruct (calculate_put_return sp ps pp pd default_contract_size)
    as [pr | e]; simpl; [| reflexivity].
  destruct b; [| reflexivity].
  destruct (calculate_call_return ps cs cp (ps - pp) cd
              default_contract_size) as [cr | e]; simpl; [| reflexivity].
  destruct (truediv _ _) as [q | e]; simpl; [| reflexivity].
  rewrite annualize_block. reflexivity.
Qed.

(** Full-cycle branch: what a returned dictionary holds. *)
Lemma wheel_assigned_inv
    (sp ps pp cs cp : R) (pd cd : Z) (w : WheelMetrics.t) :
  calculate_wheel_cycle_return sp ps pp cs cp pd cd true = Ok w ->
  exists pr cr,
    calculate_put_return sp ps pp pd default_contract_size = Ok pr
    /\ calculate_call_return ps cs cp (ps - pp) cd default_contract_size
       = Ok cr
    /\ ps * 100 <> 0
    /\ annualize_return ((pp * 100 + cp * 100) / (ps * 100) * 100) (pd + cd)
       = Ok (WheelMetrics.annualized_cycle_return w)
    /\ w = WheelMetrics.mk pr (Some cr) (pp * 100 + cp * 100)
             ((pp * 100 + cp * 100) / (ps * 100) * 100)
             (WheelMetrics.annualized_cycle_return w) (pd + cd) (ps * 100).
Proof.
  rewrite calculate_wheel_cycle_return_eq. intros H.
  apply bind_inv in H as (pr & Hpr & H).
  apply bind_inv in H as (cr & Hcr & H).
  exists pr, cr. split; [exact Hpr |]. split; [exact Hcr |].
  apply calculate_put_return_inv in Hpr as (_ & _ & _ & Epr).
  apply calculate_call_return_inv in Hcr as (_ & _ & _ & Ecr).
  rewrite Epr, Ecr in H. simpl in H.
  apply bind_inv in H as (q & Hq & H). apply truediv_inv in Hq as [Hc ->].
  apply bind_inv in H as (a & Ha & H).
  injection H as <-. simpl. rewrite <- Epr, <- Ecr. auto.
Qed.

(** The full cycle returns when none of its denominators is zero and
    none of its three annualisations overflows. *)
Lemma wheel_assigned_ok (sp ps pp cs cp : R) (pd cd : Z) :
  sp <> 0 -> ps <> 0 -> ps - pp <> 0 ->
  - 2 <= 1 + pp / ps <= 2 ->
  - 2 <= 1 + cp / (ps - pp) <= 2
  /\ - 2 <= 1 + (cp + (cs - (ps - pp))) / (ps - pp) <= 2 ->
  - 2 <= 1 + (pp + cp) / ps <= 2 ->
  exists w, calculate_wheel_cycle_return sp ps pp cs cp pd cd true = Ok w.
Proof.
  intros Hs Hk Hb Bput Bcall Bcycle. rewrite calculate_wheel_cycle_return_eq.
  destruct (calculate_put_return_ok sp ps pp pd default_contract_size)
    as [pr Hpr];
    [unfold default_contract_size; lra | exact Hs | right; exact Bput |].
  destruct (calculate_call_return_ok ps cs cp (ps - pp) cd
              default_contract_size) as [cr Hcr];
    [unfold default_contract_size; lra | exact Hk | right; exact Bcall |].
  rewrite Hpr. simpl. rewrite Hcr. simpl.
  rewrite truediv_ok by lra. simpl.
  apply calculate_put_return_inv in Hpr as (_ & _ & _ & Epr).
  apply calculate_call_return_inv in Hcr as (_ & _ & _ & Ecr).
  rewrite Epr, Ecr. unfold default_contract_size. simpl.
  match goal with
  | |- context [annualize_return ?x ?d] =>
      destruct (annualize_return_ok x d) as [a Ha]
  end.
  { right.
    replace ((pp * 100 + cp * 100) / (ps * 100) * 100 / 100)
      with ((pp + cp) / ps) by (field; exact Hk).
    exact Bcycle. }
  rewrite Ha. simpl. eauto.
Qed.

(** Without assignment the cycle returns as soon as the put does. *)
Lemma wheel_put_only_ok (sp ps pp cs cp : R) (pd cd : Z) :
  sp <> 0 -> ps <> 0 -> (pd <= 0)%Z \/ - 2 <= 1 + pp / ps <= 2 ->
  exists w, calculate_wheel_cycle_return sp ps pp cs cp pd cd false = Ok w.
Proof.
  intros Hs Hk Hb. rewrite calculate_wheel_cycle_return_eq.
  destruct (calculate_put_return_ok sp ps pp pd default_contract_size)
    as [pr Hpr];
    [unfold default_contract_size; lra | exact Hs | exact Hb |].
  rewrite Hpr. simpl. eauto.
Qed.

(** ** Properties of the calculator *)

(** C1.  Whenever [calculate_put_return] returns, its [annualized_return]
    is [((1 + return_pct/100) ^ (365/days) - 1) * 100] for a positive
    number of days and [0] otherwise; [calculate_call_return] obeys the
    same formula on [total_return_pct]. *)
Theorem annualized_return_compounds :
  (forall (sp k p : R) (d n : Z) (r : PutMetrics.t),
      calculate_put_return sp k p d n = Ok r ->
      compounds_to (PutMetrics.return_pct r) d
        (PutMetrics.annualized_return r))
  /\ (forall (sp k p c : R) (d n : Z) (r : CallMetrics.t),
      calculate_call_return sp k p c d n = Ok r ->
      compounds_to (CallMetrics.total_return_pct r) d
        (CallMetrics.annualized_return r)).
Proof.
  split.
  - intros sp k p d n r H.
    apply calculate_put_return_inv in H as (_ & _ & Ha & E).
    rewrite E at 1. simpl. apply annualize_return_spec. exact Ha.
  - intros sp k p c d n r H.
    apply calculate_call_return_inv in H as (_ & _ & Ha & E).
    rewrite E at 1. simpl. apply annualize_return_spec. exact Ha.
Qed.

Lemma annualized_return_compounds_witness :
  (exists r, calculate_put_return 100 95 2 30 100 = Ok r
             /\ compounds_to (PutMetrics.return_pct r) 30
                  (PutMetrics.annualized_return r))
  /\ (exists r, calculate_call_return 100 105 (3 / 2) 98 0 100 = Ok r
                /\ compounds_to (CallMetrics.total_return_pct r) 0
                     (CallMetrics.annualized_return r)).
Proof.
  split.
  - destruct (calculate_put_return_ok 100 95 2 30 100) as [r Hr];
      [lra | lra | right; lra |].
    exists r. split; [exact Hr |].
    exact (proj1 annualized_return_compounds _ _ _ _ _ _ Hr).
  - destruct (calculate_call_return_ok 100 105 (3 / 2) 98 0 100) as [r Hr];
      [lra | lra | right; split; lra |].
    exists r. split; [exact Hr |].
    exact (proj2 annualized_return_compounds _ _ _ _ _ _ _ Hr).
Defined.









(** C5.  A returned covered call has
    [potential_capital_gain = max (0, strike - cost_basis) * contract_size]
    and [total_return = premium_received + potential_capital_gain]; the
    call [(100, 105, 1.5, 98, 30)] returns [premium_received = 150],
    [capital_invested = 9800], [potential_capital_gain = 700] and
    [total_return = 850]. *)
Theorem call_capital_gain_floored :
  (forall (sp k p c : R) (d n : Z) (r : CallMetrics.t),
      calculate_call_return sp k p c d n = Ok r ->
      CallMetrics.potential_capital_gain r = Rmax 0 (k - c) * IZR n
      /\ CallMetrics.total_return r
         = CallMetrics.premium_received r
           + CallMetrics.potential_capital_gain r)
  /\ (exists r,
        calculate_call_return 100 105 (3 / 2) 98 30 default_contract_size
        = Ok r
        /\ CallMetrics.premium_received r = 150
        /\ CallMetrics.capital_invested r = 9800
        /\ CallMetrics.potential_capital_gain r = 700
        /\ CallMetrics.total_return r = 850).
Proof.
  split.
  - intros sp k p c d n r H.
    apply calculate_call_return_inv in H as (_ & _ & _ & E).
    rewrite E. simpl. unfold call_capital_gain, call_total_return, Rmax.
    destruct (Rgt_dec k c) as [G | G];
      destruct (Rle_dec 0 (k - c)) as [L | L]; split; try lra.
    replace (k - c) with 0 by lra. lra.
  - destruct (calculate_call_return_ok 100 105 (3 / 2) 98 30
                default_contract_size) as [r Hr];
      [unfold default_contract_size; lra | lra
      | right; split; lra |].
    exists r. split; [exact Hr |].
    apply calculate_call_return_inv in Hr as (_ & _ & _ & E).
    rewrite E. simpl.
    unfold call_capital_gain, call_total_return, default_contract_size.
    destruct (Rgt_dec 105 98) as [G | G]; repeat split; lra.
Qed.

Lemma call_capital_gain_floored_witness :
  exists r,
    calculate_call_return 100 105 (3 / 2) 98 30 default_contract_size = Ok r
    /\ CallMetrics.potential_capital_gain r
       = Rmax 0 (105 - 98) * IZR default_contract_size.
Proof.
  destruct (proj2 call_capital_gain_floored) as (r & Hr & _).
  exists r. split; [exact Hr |].
  exact (proj1 (proj1 call_capital_gain_floored _ _ _ _ _ _ _ Hr)).
Defined.

(** C6.  At or past expiration the probability of profit is decided by
    the prices alone: [1.0] when the stock price is at least the
    breakeven price, [0.0] otherwise, whatever the volatility and the
    distribution function. *)
Theorem probability_of_profit_at_expiration
    (norm_cdf : R -> R) (sp be iv : R) (d : Z) :
  (d <= 0)%Z ->
  (sp >= be -> calculate_probability_of_profit norm_cdf sp be iv d = 1)
  /\ (~ sp >= be -> calculate_probability_of_profit norm_cdf sp be iv d = 0).
Proof.
  intros Hd. unfold calculate_probability_of_profit.
  destruct (Z.leb_spec d 0) as [_ | H]; [| lia].
  destruct (Rge_dec sp be) as [G | G]; split; intros H;
    [reflexivity | contradiction | contradiction | reflexivity].
Qed.

Lemma probability_of_profit_at_expiration_witness :
  calculate_probability_of_profit (fun z => z) 100 93 (1 / 4) 0 = 1
  /\ calculate_probability_of_profit (fun z => z) 90 93 (1 / 4) (-1) = 0.
Proof.
  split.
  - apply (probability_of_profit_at_expiration (fun z => z) 100 93 (1 / 4) 0);
      [lia | lra].
  - apply (probability_of_profit_at_expiration (fun z => z) 90 93 (1 / 4)
             (-1)); [lia | lra].
Defined.

(** C7, as the code has it.  Between two returned puts that differ in the
    premium only, for a positive strike the larger premium has the
    strictly larger [return_pct]; with a positive number of days and the
    smaller premium at least minus the strike it also has the strictly
    larger [annualized_return]; with no days left both annualised returns
    are zero. *)
Theorem put_premium_monotone
    (sp k p1 p2 : R) (d n : Z) (r1 r2 : PutMetrics.t) :
  calculate_put_return sp k p1 d n = Ok r1 ->
  calculate_put_return sp k p2 d n = Ok r2 ->
  0 < k -> p1 < p2 ->
  PutMetrics.return_pct r1 < PutMetrics.return_pct r2
  /\ ((d > 0)%Z -> - k <= p1 ->
      exists a1 a2,
        PutMetrics.annualized_return r1 = PyFloat a1
        /\ PutMetrics.annualized_return r2 = PyFloat a2
        /\ a1 < a2)
  /\ ((d <= 0)%Z ->
      PutMetrics.annualized_return r1 = PyFloat 0
      /\ PutMetrics.annualized_return r2 = PyFloat 0).
Proof.
  intros H1 H2 Hk Hp.
  apply calculate_put_return_inv in H1 as (Hc & _ & Ha1 & E1).
  apply calculate_put_return_inv in H2 as (_ & _ & Ha2 & E2).
  rewrite (put_return_pct_ratio _ _ _ Hc) in Ha1, E1.
  rewrite (put_return_pct_ratio _ _ _ Hc) in Ha2, E2.
  assert (Hik : 0 < / k) by (apply Rinv_0_lt_compat; exact Hk).
  assert (Hq : p1 / k < p2 / k).
  { unfold Rdiv. apply Rmult_lt_compat_r; assumption. }
  apply annualize_return_spec in Ha1 as [Hpos1 Hnon1].
  apply annualize_return_spec in Ha2 as [Hpos2 Hnon2].
  split; [| split].
  - rewrite E1, E2. simpl. lra.
  - intros Hd Hlow.
    destruct (Hpos1 Hd) as (q1 & Hq1 & ->).
    destruct (Hpos2 Hd) as (q2 & Hq2 & ->).
    assert (Hy : 0 < 365 / IZR d) by (apply periods_per_year_pos; exact Hd).
    assert (Hb1 : 0 <= 1 + p1 / k * 100 / 100).
    { assert (- 1 <= p1 / k); [| lra].
      replace (- 1) with (- k / k) by (field; lra).
      unfold Rdiv. apply Rmult_le_compat_r; lra. }
    assert (Hb2 : 0 < 1 + p2 / k * 100 / 100) by lra.
    apply (float_pow_pos_base_inv _ _ _ Hb2 Hy) in Hq2 as [-> _].
    destruct Hb1 as [Hb1 | Hb1].
    + apply (float_pow_pos_base_inv _ _ _ Hb1 Hy) in Hq1 as [-> _].
      simpl. do 2 eexists. split; [reflexivity |]. split; [reflexivity |].
      assert (Rpower (1 + p1 / k * 100 / 100) (365 / IZR d)
              < Rpower (1 + p2 / k * 100 / 100) (365 / IZR d)).
      { apply Rlt_Rpower_l; [exact Hy | split; lra]. }
      lra.
    + rewrite <- Hb1 in Hq1.
      rewrite (float_pow_zero_base _ Hy) in Hq1. injection Hq1 as <-.
      simpl. do 2 eexists. split; [reflexivity |]. split; [reflexivity |].
      assert (0 < Rpower (1 + p2 / k * 100 / 100) (365 / IZR d))
        by (unfold Rpower; apply exp_pos).
      lra.
  - intros Hd. split; [apply Hnon1 | apply Hnon2]; exact Hd.
Qed.

Lemma put_premium_monotone_witness :
  exists r1 r2,
    calculate_put_return 100 95 1 30 100 = Ok r1
    /\ calculate_put_return 100 95 2 30 100 = Ok r2
    /\ PutMetrics.return_pct r1 < PutMetrics.return_pct r2
    /\ exists a1 a2,
        PutMetrics.annualized_return r1 = PyFloat a1
        /\ PutMetrics.annualized_return r2 = PyFloat a2
        /\ a1 < a2.
Proof.
  destruct (calculate_put_return_ok 100 95 1 30 100) as [r1 H1];
    [lra | lra | right; lra |].
  destruct (calculate_put_return_ok 100 95 2 30 100) as [r2 H2];
    [lra | lra | right; lra |].
  exists r1, r2. split; [exact H1 |]. split; [exact H2 |].
  destruct (put_premium_monotone 100 95 1 2 30 100 r1 r2 H1 H2)
    as (Hr & Ha & _); [lra | lra |].
  split; [exact Hr |]. apply Ha; [lia | lra].
Defined.

(** C7 as stated fails: with no days left the annualised return is zero
    for both premiums; with a negative strike the larger premium has the
    smaller [return_pct]; and a premium below minus the strike annualises
    to a complex number, which has no order. *)
Lemma put_premium_monotone_counterexample :
  (exists r1 r2,
      calculate_put_return 100 95 1 0 100 = Ok r1
      /\ calculate_put_return 100 95 2 0 100 = Ok r2
      /\ PutMetrics.annualized_return r1 = PutMetrics.annualized_return r2)
  /\ (exists r1 r2,
      calculate_put_return 100 (-95) 1 30 100 = Ok r1
      /\ calculate_put_return 100 (-95) 2 30 100 = Ok r2
      /\ PutMetrics.return_pct r2 < PutMetrics.return_pct r1)
  /\ (exists r re im,
      calculate_put_return 100 95 (-190) 30 100 = Ok r
      /\ PutMetrics.annualized_return r = PyComplex re im).
Proof.
  split; [| split].
  - destruct (calculate_put_return_ok 100 95 1 0 100) as [r1 H1];
      [lra | lra | right; lra |].
    destruct (calculate_put_return_ok 100 95 2 0 100) as [r2 H2];
      [lra | lra | right; lra |].
    exists r1, r2. split; [exact H1 |]. split; [exact H2 |].
    apply calculate_put_return_inv in H1 as (_ & _ & Ha1 & _).
    apply calculate_put_return_inv in H2 as (_ & _ & Ha2 & _).
    apply annualize_return_spec in Ha1 as [_ ->]; [| lia].
    apply annualize_return_spec in Ha2 as [_ ->]; [| lia].
    reflexivity.
  - destruct (calculate_put_return_ok 100 (-95) 1 30 100) as [r1 H1];
      [lra | lra | right; lra |].
    destruct (calculate_put_return_ok 100 (-95) 2 30 100) as [r2 H2];
      [lra | lra | right; lra |].
    exists r1, r2. split; [exact H1 |]. split; [exact H2 |].
    apply calculate_put_return_inv in H1 as (_ & _ & _ & E1).
    apply calculate_put_return_inv in H2 as (_ & _ & _ & E2).
    rewrite E1, E2. simpl. lra.
  - destruct (calculate_put_return_ok 100 95 (-190) 30 100) as [r H];
      [lra | lra | right; lra |].
    exists r.
    pose proof H as H'.
    apply calculate_put_return_inv in H' as (_ & _ & Ha & _).
    apply annualize_return_spec in Ha as [Hpos _].
    destruct Hpos as (q & Hq & Ea); [lia |].
    rewrite float_pow_neg_frac in Hq;
      [| lra | exact frac_part_365_30
       | apply Rpower_below_float_max; lra].
    injection Hq as <-. simpl in Ea.
    do 2 eexists. split; [exact H | exact Ea].
Qed.

(** C8.  Without assignment a returned cycle is the put phase alone: the
    five aggregates are the put's [premium_received], [return_pct],
    [annualized_return], days and [capital_required], and there is no
    call phase. *)
Theorem wheel_cycle_put_only
    (sp ps pp cs cp : R) (pd cd : Z) (w : WheelMetrics.t) :
  calculate_wheel_cycle_return sp ps pp cs cp pd cd false = Ok w ->
  calculate_put_return sp ps pp pd default_contract_size
  = Ok (WheelMetrics.put_phase w)
  /\ WheelMetrics.call_phase w = None
  /\ WheelMetrics.total_premium w
     = PutMetrics.premium_received (WheelMetrics.put_phase w)
  /\ WheelMetrics.total_return_pct w
     = PutMetrics.return_pct (WheelMetrics.put_phase w)
  /\ WheelMetrics.annualized_cycle_return w
     = PutMetrics.annualized_return (WheelMetrics.put_phase w)
  /\ WheelMetrics.total_days w = pd
  /\ WheelMetrics.capital_required w
     = PutMetrics.capital_required (WheelMetrics.put_phase w).
Proof.
  rewrite calculate_wheel_cycle_return_eq. intros H.
  apply bind_inv in H as (pr & Hpr & H). injection H as <-. simpl.
  repeat split. exact Hpr.
Qed.

Lemma wheel_cycle_put_only_witness :
  exists w,
    calculate_wheel_cycle_return 100 95 2 100 (3 / 2) 30 30 false = Ok w
    /\ WheelMetrics.call_phase w = None
    /\ WheelMetrics.total_premium w
       = PutMetrics.premium_received (WheelMetrics.put_phase w)
    /\ WheelMetrics.total_days w = 30%Z.
Proof.
  destruct (wheel_put_only_ok 100 95 2 100 (3 / 2) 30 30) as [w Hw];
    [lra | lra | right; lra |].
  exists w. split; [exact Hw |].
  destruct (wheel_cycle_put_only _ _ _ _ _ _ _ _ Hw)
    as (_ & Hc & Hp & _ & _ & Hd & _).
  split; [exact Hc |]. split; [exact Hp | exact Hd].
Defined.



(** C10.  With assignment assumed, two returned cycles that differ only
    in the stock price and the call strike agree on [total_premium],
    [total_return_pct], [annualized_cycle_return], [total_days] and
    [capital_required]. *)
Theorem wheel_aggregates_independent
    (sp1 sp2 cs1 cs2 ps pp cp : R) (pd cd : Z) (w1 w2 : WheelMetrics.t) :
  calculate_wheel_cycle_return sp1 ps pp cs1 cp pd cd true = Ok w1 ->
  calculate_wheel_cycle_return sp2 ps pp cs2 cp pd cd true = Ok w2 ->
  WheelMetrics.total_premium w1 = WheelMetrics.total_premium w2
  /\ WheelMetrics.total_return_pct w1 = WheelMetrics.total_return_pct w2
  /\ WheelMetrics.annualized_cycle_return w1
     = WheelMetrics.annualized_cycle_return w2
  /\ WheelMetrics.total_days w1 = WheelMetrics.total_days w2
  /\ WheelMetrics.capital_required w1 = WheelMetrics.capital_required w2.
Proof.
  intros H1 H2.
  apply wheel_assigned_inv in H1 as (pr1 & cr1 & _ & _ & _ & Ha1 & E1).
  apply wheel_assigned_inv in H2 as (pr2 & cr2 & _ & _ & _ & Ha2 & E2).
  assert (Ha : WheelMetrics.annualized_cycle_return w1
               = WheelMetrics.annualized_cycle_return w2).
  { rewrite Ha1 in Ha2. injection Ha2 as Ha2. exact Ha2. }
  split; [| split; [| split; [exact Ha |]]];
    rewrite E1, E2; simpl; repeat split; reflexivity.
Qed.

Lemma wheel_aggregates_independent_witness :
  exists w1 w2,
    calculate_wheel_cycle_return 100 95 2 100 (3 / 2) 30 30 true = Ok w1
    /\ calculate_wheel_cycle_return 120 95 2 90 (3 / 2) 30 30 true = Ok w2
    /\ WheelMetrics.total_premium w1 = WheelMetrics.total_premium w2
    /\ WheelMetrics.total_return_pct w1 = WheelMetrics.total_return_pct w2
    /\ WheelMetrics.annualized_cycle_return w1
       = WheelMetrics.annualized_cycle_return w2
    /\ WheelMetrics.total_days w1 = WheelMetrics.total_days w2
    /\ WheelMetrics.capital_required w1 = WheelMetrics.capital_required w2.
Proof.
  destruct (wheel_assigned_ok 100 95 2 100 (3 / 2) 30 30) as [w1 H1];
    [lra | lra | lra | lra | split; lra | lra |].
  destruct (wheel_assigned_ok 120 95 2 90 (3 / 2) 30 30) as [w2 H2];
    [lra | lra | lra | lra | split; lra | lra |].
  exists w1, w2. split; [exact H1 |]. split; [exact H2 |].
  exact (wheel_aggregates_independent _ _ _ _ _ _ _ _ _ _ _ H1 H2).
Defined.

(** ** Further properties: error behaviour of the calculator *)





(** ** Further properties: the annualisation *)





(** X3.  The three annualisations written out in the calculator are the
    utility [annualize_return]: on [return_pct] for a put, on
    [total_return_pct] for a call, and on the cycle's [total_return_pct]
    over its [total_days] for a full cycle. *)
Theorem calculator_annualizes_like_utils :
  (forall (sp k p : R) (d n : Z) (r : PutMetrics.t),
      calculate_put_return sp k p d n = Ok r ->
      annualize_return (PutMetrics.return_pct r) d
      = Ok (PutMetrics.annualized_return r))
  /\ (forall (sp k p c : R) (d n : Z) (r : CallMetrics.t),
      calculate_call_return sp k p c d n = Ok r ->
      annualize_return (CallMetrics.total_return_pct r) d
      = Ok (CallMetrics.annualized_return r))
  /\ (forall (sp ps pp cs cp : R) (pd cd : Z) (w : WheelMetrics.t),
      calculate_wheel_cycle_return sp ps pp cs cp pd cd true = Ok w ->
      annualize_return (WheelMetrics.total_return_pct w)
        (WheelMetrics.total_days w)
      = Ok (WheelMetrics.annualized_cycle_return w)).
Proof.
  split; [| split].
  - intros sp k p d n r H.
    apply calculate_put_return_inv in H as (_ & _ & Ha & E).
    rewrite E at 1. exact Ha.
  - intros sp k p c d n r H.
    apply calculate_call_return_inv in H as (_ & _ & Ha & E).
    rewrite E at 1. exact Ha.
  - intros sp ps pp cs cp pd cd w H.
    apply wheel_assigned_inv in H as (pr & cr & _ & _ & _ & Ha & E).
    rewrite E at 1 2. exact Ha.
Qed.

Lemma calculator_annualizes_like_utils_witness :
  (exists r, calculate_put_return 100 95 2 30 100 = Ok r
             /\ annualize_return (PutMetrics.return_pct r) 30
                = Ok (PutMetrics.annualized_return r))
  /\ (exists w,
        calculate_wheel_cycle_return 100 95 2 100 (3 / 2) 30 30 true = Ok w
        /\ annualize_return (WheelMetrics.total_return_pct w)
             (WheelMetrics.total_days w)
           = Ok (WheelMetrics.annualized_cycle_return w)).
Proof.
  split.
  - destruct (calculate_put_return_ok 100 95 2 30 100) as [r Hr];
      [lra | lra | right; lra |].
    exists r. split; [exact Hr |].
    exact (proj1 calculator_annualizes_like_utils _ _ _ _ _ _ Hr).
  - destruct (wheel_assigned_ok 100 95 2 100 (3 / 2) 30 30) as [w Hw];
      [lra | lra | lra | lra | split; lra | lra |].
    exists w. split; [exact Hw |].
    exact (proj2 (proj2 calculator_annualizes_like_utils)
             _ _ _ _ _ _ _ _ Hw).
Defined.







(** ** Further properties: contract size and the cycle's parts *)





(** ** Further properties: the risk estimators *)



(** X10.  For a probability within [[0, 1]], a non-negative premium,
    maximal loss and contract size, the expected value lies between the
    whole loss and the whole premium, and reaches them at probability
    zero and one. *)
Theorem expected_value_bounds (premium max_loss pop : R) (n : Z) :
  0 <= pop <= 1 -> 0 <= premium -> 0 <= max_loss -> (0 <= n)%Z ->
  - (max_loss * IZR n) <= calculate_expected_value premium max_loss pop n
  /\ calculate_expected_value premium max_loss pop n <= premium * IZR n
  /\ calculate_expected_value premium max_loss 0 n = - (max_loss * IZR n)
  /\ calculate_expected_value premium max_loss 1 n = premium * IZR n.
Proof.
  intros Hp Hpr Hl Hn. apply IZR_le in Hn.
  unfold calculate_expected_value.
  assert (0 <= premium * IZR n) by nra.
  assert (0 <= max_loss * IZR n) by nra.
  repeat split; nra.
Qed.

Lemma expected_value_bounds_witness :
  - (5 * IZR 100) <= calculate_expected_value 2 5 (7 / 10) 100
  /\ calculate_expected_value 2 5 (7 / 10) 100 <= 2 * IZR 100.
Proof.
  destruct (expected_value_bounds 2 5 (7 / 10) 100) as (Hl & Hu & _);
    [lra | lra | lra | lia |].
  split; [exact Hl | exact Hu].
Defined.



(** The expected move of [calculate_probability_of_profit] is not
    positive when the price times the volatility is not. *)
Lemma expected_move_nonpos (sp iv t : R) :
  sp * iv <= 0 -> ~ sp * iv * sqrt t > 0.
Proof.
  intros H. pose proof (sqrt_pos t) as Hs. nra.
Qed.

(** X12.  Before expiration the estimate is [norm_cdf 0], whatever the
    breakeven price, as soon as the price times the volatility is not
    positive (a volatility of zero, as for a missing quote), and also
    when the price sits on the breakeven price. *)
Theorem probability_of_profit_centre
    (norm_cdf : R -> R) (sp be iv : R) (d : Z) :
  (d > 0)%Z -> sp * iv <= 0 \/ sp = be ->
  calculate_probability_of_profit norm_cdf sp be iv d = norm_cdf 0.
Proof.
  intros Hd H. unfold calculate_probability_of_profit.
  destruct (Z.leb_spec d 0) as [L | _]; [lia |].
  destruct (Rgt_dec (sp * iv * sqrt (IZR d / 365)) 0) as [G | G];
    [| reflexivity].
  destruct H as [H | H].
  - exfalso. revert G. apply expected_move_nonpos. exact H.
  - subst be. f_equal. unfold Rdiv, Rminus. rewrite Rplus_opp_r.
    apply Rmult_0_l.
Qed.

Lemma probability_of_profit_centre_witness :
  calculate_probability_of_profit (fun z => z + 1 / 2) 100 60 0 30
  = 0 + 1 / 2.
Proof.
  apply (probability_of_profit_centre (fun z => z + 1 / 2) 100 60 0 30);
    [lia | left; lra].
Defined.

(** X13.  For a distribution function that is monotone with values in
    [[0, 1]], the estimate lies in [[0, 1]] and never grows with the
    breakeven price, at and before expiration alike. *)
Theorem probability_of_profit_monotone
    (norm_cdf : R -> R) (sp be1 be2 iv : R) (d : Z) :
  (forall x y, x <= y -> norm_cdf x <= norm_cdf y) ->
  (forall x, 0 <= norm_cdf x <= 1) ->
  be1 <= be2 ->
  0 <= calculate_probability_of_profit norm_cdf sp be2 iv d
  /\ calculate_probability_of_profit norm_cdf sp be2 iv d
     <= calculate_probability_of_profit norm_cdf sp be1 iv d
  /\ calculate_probability_of_profit norm_cdf sp be1 iv d <= 1.
Proof.
  intros Hmono Hrange Hbe. unfold calculate_probability_of_profit.
  destruct (Z.leb_spec d 0) as [_ | _].
  - destruct (Rge_dec sp be2), (Rge_dec sp be1); lra.
  - destruct (Rgt_dec (sp * iv * sqrt (IZR d / 365)) 0) as [G | G].
    + split; [apply Hrange |]. split; [| apply Hrange].
      apply Hmono. unfold Rdiv. apply Rmult_le_compat_r.
      * left. apply Rinv_0_lt_compat. exact G.
      * lra.
    + split; [apply Hrange |]. split; [lra | apply Hrange].
Qed.

Lemma ramp_cdf_monotone (x y : R) : x <= y -> ramp_cdf x <= ramp_cdf y.
Proof.
  intros H. unfold ramp_cdf.
  apply Rle_max_compat_l. apply Rle_min_compat_l. lra.
Qed.

Lemma ramp_cdf_range (x : R) : 0 <= ramp_cdf x <= 1.
Proof.
  unfold ramp_cdf. split; [apply Rmax_l |].
  apply Rmax_lub; [lra | apply Rmin_l].
Qed.

Lemma probability_of_profit_monotone_witness :
  calculate_probability_of_profit ramp_cdf 100 97 (1 / 4) 30
  <= calculate_probability_of_profit ramp_cdf 100 93 (1 / 4) 30.
Proof.
  apply (probability_of_profit_monotone ramp_cdf 100 93 97 (1 / 4) 30
           ramp_cdf_monotone ramp_cdf_range).
  lra.
Defined.

(** X14.  At or past expiration the expected value computed from the
    estimated probability is the whole premium when the price is at least
    the breakeven price, and the whole loss otherwise. *)
Theorem expected_value_at_expiration
    (norm_cdf : R -> R) (sp be iv premium max_loss : R) (d n : Z) :
  (d <= 0)%Z ->
  calculate_expected_value premium max_loss
    (calculate_probability_of_profit norm_cdf sp be iv d) n
  = if Rge_dec sp be then premium * IZR n else - (max_loss * IZR n).
Proof.
  intros Hd. unfold calculate_probability_of_profit.
  destruct (Z.leb_spec d 0) as [_ | H]; [| lia].
  unfold calculate_expected_value. destruct (Rge_dec sp be); lra.
Qed.

Lemma expected_value_at_expiration_witness :
  calculate_expected_value 2 93
    (calculate_probability_of_profit ramp_cdf 100 93 (1 / 4) 0) 100
  = if Rge_dec 100 93 then 2 * IZR 100 else - (93 * IZR 100).
Proof.
  apply (expected_value_at_expiration ramp_cdf 100 93 (1 / 4) 2 93 0 100).
  lia.
Defined.

(** ** Further properties: the utilities *)

Lemma fold_Rmin_le_init (xs : list R) (x : R) : fold_left Rmin xs x <= x.
Proof.
  revert x. induction xs as [| y ys IH]; intros x; simpl; [lra |].
  eapply Rle_trans; [apply IH | apply Rmin_l].
Qed.

Lemma fold_Rmin_le_in (xs : list R) (x y : R) :
  In y xs -> fold_left Rmin xs x <= y.
Proof.
  revert x. induction xs as [| z zs IH]; intros x Hin; simpl;
    [contradiction |].
  destruct Hin as [-> | Hin].
  - eapply Rle_trans; [apply fold_Rmin_le_init | apply Rmin_r].
  - apply IH. exact Hin.
Qed.

Lemma fold_Rmin_in (xs : list R) (x : R) : In (fold_left Rmin xs x) (x :: xs).
Proof.
  revert x. induction xs as [| y ys IH]; intros x; simpl; [auto |].
  destruct (IH (Rmin x y)) as [H | H]; [| auto].
  rewrite <- H. unfold Rmin. destruct (Rle_dec x y); auto.
Qed.

Lemma fold_Rmax_ge_init (xs : list R) (x : R) : x <= fold_left Rmax xs x.
Proof.
  revert x. induction xs as [| y ys IH]; intros x; simpl; [lra |].
  eapply Rle_trans; [apply Rmax_l | apply IH].
Qed.

Lemma fold_Rmax_ge_in (xs : list R) (x y : R) :
  In y xs -> y <= fold_left Rmax xs x.
Proof.
  revert x. induction xs as [| z zs IH]; intros x Hin; simpl;
    [contradiction |].
  destruct Hin as [-> | Hin].
  - eapply Rle_trans; [apply Rmax_r | apply fold_Rmax_ge_init].
  - apply IH. exact Hin.
Qed.

Lemma fold_Rmax_in (xs : list R) (x : R) : In (fold_left Rmax xs x) (x :: xs).
Proof.
  revert x. induction xs as [| y ys IH]; intros x; simpl; [auto |].
  destruct (IH (Rmax x y)) as [H | H]; [| auto].
  rewrite <- H. unfold Rmax. destruct (Rle_dec x y); auto.
Qed.

(** The clamp that ends [calculate_iv_rank]. *)
Lemma clamp_range (v : R) : 0 <= Rmax 0 (Rmin 100 v) <= 100.
Proof.
  split; [apply Rmax_l |]. apply Rmax_lub; [lra | apply Rmin_l].
Qed.

Lemma clamp_monotone (u v : R) :
  u <= v -> Rmax 0 (Rmin 100 u) <= Rmax 0 (Rmin 100 v).
Proof.
  intros H. apply Rle_max_compat_l. apply Rle_min_compat_l. exact H.
Qed.

(** X15.  For every current volatility and every history, the IV rank
    lies in [[0, 100]] and never decreases when the current volatility
    grows. *)
Theorem iv_rank_range_monotone (cur cur' : R) (h : list R) :
  cur <= cur' ->
  0 <= calculate_iv_rank cur h <= 100
  /\ calculate_iv_rank cur h <= calculate_iv_rank cur' h.
Proof.
  intros Hc. destruct h as [| x [| y ys]]; simpl; [lra | lra |].
  set (lo := fold_left Rmin ys (Rmin x y)).
  set (hi := fold_left Rmax ys (Rmax x y)).
  destruct (Req_dec_T hi lo) as [E | N]; [lra |].
  split; [apply clamp_range |]. apply clamp_monotone.
  assert (Hlh : lo <= hi).
  { eapply Rle_trans; [apply fold_Rmin_le_init |].
    eapply Rle_trans; [apply Rminmax | apply fold_Rmax_ge_init]. }
  assert (Hi : 0 < / (hi - lo)) by (apply Rinv_0_lt_compat; lra).
  unfold Rdiv. nra.
Qed.

Lemma iv_rank_range_monotone_witness :
  calculate_iv_rank (1 / 4) [1 / 5; 2 / 5]
  <= calculate_iv_rank (3 / 10) [1 / 5; 2 / 5].
Proof.
  apply (iv_rank_range_monotone (1 / 4) (3 / 10) [1 / 5; 2 / 5]). lra.
Defined.

(** X16.  The IV rank depends on the history through its smallest and
    largest value only: when these are [lo < hi] the rank is the position
    of the current volatility between them in percent, cut to
    [[0, 100]]; so it is 0 at or below [lo], 100 at or above [hi], and 50
    midway. *)
Theorem iv_rank_of_range (cur lo hi : R) (h : list R) :
  In lo h -> In hi h -> (forall y, In y h -> lo <= y <= hi) -> lo < hi ->
  calculate_iv_rank cur h
  = Rmax 0 (Rmin 100 ((cur - lo) / (hi - lo) * 100))
  /\ (cur <= lo -> calculate_iv_rank cur h = 0)
  /\ (hi <= cur -> calculate_iv_rank cur h = 100)
  /\ (cur = (lo + hi) / 2 -> calculate_iv_rank cur h = 50).
Proof.
  intros Hlo Hhi Hb Hlt.
  assert (E : calculate_iv_rank cur h
              = Rmax 0 (Rmin 100 ((cur - lo) / (hi - lo) * 100))).
  { destruct h as [| x [| y ys]].
    - contradiction.
    - destruct Hlo as [<- | []]. destruct Hhi as [<- | []]. lra.
    - unfold calculate_iv_rank.
      change (fold_left Rmin (y :: ys) x)
        with (fold_left Rmin (y :: ys) x).
      assert (Emin : fold_left Rmin (y :: ys) x = lo).
      { apply Rle_antisym.
        - destruct Hlo as [<- | Hlo];
            [apply fold_Rmin_le_init | apply fold_Rmin_le_in; exact Hlo].
        - apply Hb. apply fold_Rmin_in. }
      assert (Emax : fold_left Rmax (y :: ys) x = hi).
      { apply Rle_antisym.
        - apply Hb. apply fold_Rmax_in.
        - destruct Hhi as [<- | Hhi];
            [apply fold_Rmax_ge_init | apply fold_Rmax_ge_in; exact Hhi]. }
      rewrite Emin, Emax.
      destruct (Req_dec_T hi lo) as [Eq | _]; [lra | reflexivity]. }
  assert (Hi : 0 < / (hi - lo)) by (apply Rinv_0_lt_compat; lra).
  split; [exact E |]. rewrite E. split; [| split].
  - intros Hc. assert ((cur - lo) / (hi - lo) * 100 <= 0)
      by (unfold Rdiv; nra).
    rewrite Rmin_right by lra. apply Rmax_left. lra.
  - intros Hc. assert (100 <= (cur - lo) / (hi - lo) * 100).
    { replace 100 with ((hi - lo) / (hi - lo) * 100) at 1 by (field; lra).
      unfold Rdiv. nra. }
    rewrite Rmin_left by lra. apply Rmax_right. lra.
  - intros ->.
    replace (((lo + hi) / 2 - lo) / (hi - lo) * 100) with 50
      by (field; lra).
    rewrite Rmin_right by lra. apply Rmax_right. lra.
Qed.

Lemma iv_rank_of_range_witness :
  calculate_iv_rank (30 / 100)
    [20 / 100; 25 / 100; 30 / 100; 35 / 100; 40 / 100] = 50.
Proof.
  apply (iv_rank_of_range (30 / 100) (20 / 100) (40 / 100)
           [20 / 100; 25 / 100; 30 / 100; 35 / 100; 40 / 100]).
  - simpl. auto.
  - simpl. auto 6.
  - intros y Hy. simpl in Hy.
    destruct Hy as [<- | [<- | [<- | [<- | [<- | []]]]]]; lra.
  - lra.
  - lra.
Defined.

(** X17.  A history with no two different values (empty, of one entry, or
    flat) gives the default rank 50 for every current volatility; no
    division by the zero range takes place. *)
Theorem iv_rank_flat_history (cur : R) (h : list R) :
  (forall y z, In y h -> In z h -> y = z) ->
  calculate_iv_rank cur h = 50.
Proof.
  intros Hflat. destruct h as [| x [| y ys]]; [reflexivity | reflexivity |].
  unfold calculate_iv_rank.
  assert (Emin : fold_left Rmin (y :: ys) x = x).
  { apply Hflat; [apply fold_Rmin_in | left; reflexivity]. }
  assert (Emax : fold_left Rmax (y :: ys) x = x).
  { apply Hflat; [apply fold_Rmax_in | left; reflexivity]. }
  rewrite Emin, Emax.
  destruct (Req_dec_T x x) as [_ | N]; [reflexivity | contradiction].
Qed.

Lemma iv_rank_flat_history_witness :
  calculate_iv_rank (9 / 10) [3 / 10; 3 / 10; 3 / 10] = 50.
Proof.
  apply (iv_rank_flat_history (9 / 10) [3 / 10; 3 / 10; 3 / 10]).
  intros y z Hy Hz. simpl in Hy, Hz.
  destruct Hy as [<- | [<- | [<- | []]]];
    destruct Hz as [<- | [<- | [<- | []]]]; reflexivity.
Defined.

Lemma days_between (t now : Z) :
  ((t - (now - now mod microseconds_per_day)) / microseconds_per_day
   = t / microseconds_per_day - now / microseconds_per_day)%Z.
Proof.
  assert (HD : (microseconds_per_day <> 0)%Z)
    by (unfold microseconds_per_day; lia).
  pose proof (Z.div_mod now microseconds_per_day HD) as Hn.
  replace (t - (now - now mod microseconds_per_day))%Z
    with (t + (- (now / microseconds_per_day)) * microseconds_per_day)%Z
    by lia.
  rewrite Z.div_add by exact HD. lia.
Qed.

(** X18.  The days to expiration are the calendar days from today to the
    expiration day, floored at zero: the time of day of the clock and of
    the expiration play no part.  A string is first parsed, and the
    parser's [ValueError] is passed on. *)
Theorem days_to_expiration_counts_calendar_days
    (strptime : string -> checked Z) (now : Z) :
  (forall t,
      calculate_days_to_expiration strptime now (ExpirationDatetime t)
      = Returned (Z.max 0 (t / microseconds_per_day
                           - now / microseconds_per_day)))
  /\ (forall s t,
      strptime s = Returned t ->
      calculate_days_to_expiration strptime now (ExpirationString s)
      = Returned (Z.max 0 (t / microseconds_per_day
                           - now / microseconds_per_day)))
  /\ (forall s m,
      strptime s = ValueError m ->
      calculate_days_to_expiration strptime now (ExpirationString s)
      = ValueError m).
Proof.
  unfold calculate_days_to_expiration. split; [| split].
  - intros t. rewrite days_between. reflexivity.
  - intros s t ->. rewrite days_between. reflexivity.
  - intros s m ->. reflexivity.
Qed.

Lemma days_to_expiration_counts_calendar_days_witness :
  calculate_days_to_expiration (fun _ => Returned 172800000000%Z)
    86399999999 (ExpirationString "2024-01-03")
  = Returned 2%Z
  /\ calculate_days_to_expiration (fun _ => ValueError "bad date") 0
       (ExpirationString "tomorrow")
     = ValueError "bad date".
Proof.
  split.
  - apply (proj1 (proj2 (days_to_expiration_counts_calendar_days
                           (fun _ => Returned 172800000000%Z)
                           86399999999))
             "2024-01-03"%string 172800000000%Z).
    reflexivity.
  - apply (proj2 (proj2 (days_to_expiration_counts_calendar_days
                           (fun _ => ValueError "bad date") 0))
             "tomorrow"%string "bad date"%string).
    reflexivity.
Defined.

(** X19.  An option whose expiration day is today or earlier has zero
    days to expiration, and a put computed with these days reports an
    [annualized_return] of zero whatever its [return_pct]. *)
Theorem expiring_put_annualizes_to_zero
    (strptime : string -> checked Z) (now t : Z)
    (sp k p : R) (d n : Z) (r : PutMetrics.t) :
  (t / microseconds_per_day <= now / microseconds_per_day)%Z ->
  calculate_days_to_expiration strptime now (ExpirationDatetime t)
  = Returned d ->
  calculate_put_return sp k p d n = Ok r ->
  d = 0%Z
  /\ PutMetrics.annualized_return r = PyFloat 0
  /\ PutMetrics.return_pct r = p * IZR n / (k * IZR n) * 100.
Proof.
  intros Hday Hd Hr.
  unfold calculate_days_to_expiration in Hd. rewrite days_between in Hd.
  injection Hd as Hd.
  assert (Hz : d = 0%Z) by lia.
  split; [exact Hz |]. subst d.
  apply calculate_put_return_inv in Hr as (_ & _ & Ha & E).
  rewrite Z.max_l in Ha by lia.
  unfold annualize_return in Ha. simpl in Ha. injection Ha as Ha.
  split; [symmetry; exact Ha |]. rewrite E. reflexivity.
Qed.

Lemma expiring_put_annualizes_to_zero_witness :
  exists r,
    calculate_put_return 100 95 2 0 100 = Ok r
    /\ PutMetrics.annualized_return r = PyFloat 0.
Proof.
  destruct (calculate_put_return_ok 100 95 2 0 100) as [r Hr];
    [lra | lra | right; lra |].
  exists r. split; [exact Hr |].
  apply (expiring_put_annualizes_to_zero (fun _ => Returned 0%Z)
           86400000001 86400000000 100 95 2 0 100 r);
    [vm_compute; discriminate | reflexivity | exact Hr].
Defined.

(** ** Further properties: the option chain *)

Ltac split_delta :=
  repeat match goal with
         | |- context [Rgt_dec ?a ?b] => destruct (Rgt_dec a b)
         | |- context [Rlt_dec ?a ?b] => destruct (Rlt_dec a b)
         end.

(** What a returned dictionary of Greeks was computed from. *)
Lemma greeks_inv
    (cp : option R) (ot : string) (k : R) (e : string) (s : R)
    (g : Greeks.t) :
  get_option_greeks_approximation cp ot k e (Some s) = Ok (Some g) ->
  s <> 0 /\ k <> 0
  /\ g = Greeks.mk
           (if String.eqb (lower ot) "call" then
              if Rgt_dec (s / k) (11 / 10) then 75 / 100
              else if Rgt_dec (s / k) 1 then 50 / 100
              else if Rgt_dec (s / k) (95 / 100) then 30 / 100
              else 15 / 100
            else
              if Rlt_dec (s / k) (9 / 10) then - (75 / 100)
              else if Rlt_dec (s / k) 1 then - (50 / 100)
              else if Rlt_dec (s / k) (105 / 100) then - (30 / 100)
              else - (15 / 100))
           (5 / 100) (- (2 / 100)) (10 / 100).
Proof.
  unfold get_option_greeks_approximation.
  destruct (Req_dec_T s 0) as [E | Hs]; [discriminate |].
  intros H. apply bind_inv in H as (m & Hm & H).
  apply truediv_inv in Hm as [Hk ->].
  injection H as <-. auto.
Qed.

(** X20.  The estimated delta of a call lies in [[0.15, 0.75]] and that of
    anything else, taken as a put, in [[-0.75, -0.15]]; for a positive
    strike neither decreases when the stock price grows; gamma, theta and
    vega are the constants 0.05, -0.02 and 0.10. *)
Theorem greeks_delta_range_monotone
    (cp : option R) (ot : string) (k : R) (e : string) (s1 s2 : R)
    (g1 g2 : Greeks.t) :
  get_option_greeks_approximation cp ot k e (Some s1) = Ok (Some g1) ->
  get_option_greeks_approximation cp ot k e (Some s2) = Ok (Some g2) ->
  (if String.eqb (lower ot) "call"
   then 15 / 100 <= Greeks.delta g1 <= 75 / 100
   else - (75 / 100) <= Greeks.delta g1 <= - (15 / 100))
  /\ (0 < k -> s1 <= s2 -> Greeks.delta g1 <= Greeks.delta g2)
  /\ Greeks.gamma g1 = 5 / 100
  /\ Greeks.theta g1 = - (2 / 100)
  /\ Greeks.vega g1 = 10 / 100.
Proof.
  intros H1 H2.
  apply greeks_inv in H1 as (_ & _ & ->).
  apply greeks_inv in H2 as (_ & _ & ->). simpl.
  split; [| split; [| repeat split]].
  - destruct (String.eqb (lower ot) "call"); split_delta; lra.
  - intros Hk Hs.
    assert (Hm : s1 / k <= s2 / k).
    { unfold Rdiv. apply Rmult_le_compat_r; [| exact Hs].
      left. apply Rinv_0_lt_compat. exact Hk. }
    destruct (String.eqb (lower ot) "call"); split_delta; lra.
Qed.

Lemma greeks_delta_range_monotone_witness :
  exists g1 g2,
    get_option_greeks_approximation None "Call" 100 "2024-01-19"
      (Some 98) = Ok (Some g1)
    /\ get_option_greeks_approximation None "Call" 100 "2024-01-19"
         (Some 120) = Ok (Some g2)
    /\ Greeks.delta g1 <= Greeks.delta g2.
Proof.
  assert (H : forall s, s <> 0 ->
            exists g, get_option_greeks_approximation None "Call" 100
                        "2024-01-19" (Some s) = Ok (Some g)).
  { intros s Hs. unfold get_option_greeks_approximation.
    destruct (Req_dec_T s 0) as [E | _]; [contradiction |].
    rewrite truediv_ok by lra. simpl. eauto. }
  destruct (H 98) as [g1 H1]; [lra |].
  destruct (H 120) as [g2 H2]; [lra |].
  exists g1, g2. split; [exact H1 |]. split; [exact H2 |].
  apply (greeks_delta_range_monotone None "Call" 100 "2024-01-19" 98 120
           g1 g2 H1 H2); lra.
Defined.

(** X21.  The Greeks come back empty when no price is known or the price
    is zero, an explicit zero price included and before the strike is
    looked at; a known non-zero price over a zero strike raises
    [ZeroDivisionError]; an explicit price hides the fetched one; and
    every option type other than a spelling of "call" in any letter case
    is computed as a put. *)
Theorem greeks_edge_cases
    (cp : option R) (ot : string) (k : R) (e : string) :
  get_option_greeks_approximation None ot k e None = Ok None
  /\ get_option_greeks_approximation cp ot k e (Some 0) = Ok None
  /\ (forall s, s <> 0 ->
        get_option_greeks_approximation cp ot 0 e (Some s)
        = Raise ZeroDivisionError)
  /\ (forall s cp',
        get_option_greeks_approximation cp ot k e (Some s)
        = get_option_greeks_approximation cp' ot k e (Some s))
  /\ (forall s,
        get_option_greeks_approximation (Some s) ot k e None
        = get_option_greeks_approximation None ot k e (Some s))
  /\ (forall ot' e' sp,
        lower ot = lower ot' ->
        get_option_greeks_approximation cp ot k e sp
        = get_option_greeks_approximation cp ot' k e' sp)
  /\ (forall ot' sp,
        lower ot <> "call"%string -> lower ot' <> "call"%string ->
        get_option_greeks_approximation cp ot k e sp
        = get_option_greeks_approximation cp ot' k e sp).
Proof.
  unfold get_option_greeks_approximation.
  split; [reflexivity |].
  split; [destruct (Req_dec_T 0 0); [reflexivity | contradiction] |].
  split.
  { intros s Hs. destruct (Req_dec_T s 0); [contradiction |].
    rewrite truediv_zero by reflexivity. reflexivity. }
  split; [reflexivity |]. split; [reflexivity |]. split.
  - intros ot' e' sp ->. reflexivity.
  - intros ot' sp H1 H2.
    apply String.eqb_neq in H1. apply String.eqb_neq in H2.
    rewrite H1, H2. reflexivity.
Qed.

Lemma greeks_edge_cases_witness :
  get_option_greeks_approximation (Some 100) "put" 0 "2024-01-19" (Some 98)
  = Raise ZeroDivisionError
  /\ get_option_greeks_approximation (Some 100) "put" 95 "2024-01-19"
       (Some 98)
     = get_option_greeks_approximation (Some 100) "straddle" 95
         "2024-01-19" (Some 98)
  /\ get_option_greeks_approximation (Some 100) "CALL" 95 "2024-01-19"
       (Some 98)
     = get_option_greeks_approximation (Some 100) "call" 95 "2024-02-16"
         (Some 98).
Proof.
  split; [| split].
  - apply (proj1 (proj2 (proj2 (greeks_edge_cases (Some 100) "put" 0
                                  "2024-01-19")))).
    lra.
  - apply (proj2 (proj2 (proj2 (proj2 (proj2 (proj2
             (greeks_edge_cases (Some 100) "put" 95 "2024-01-19")))))));
      vm_compute; discriminate.
  - apply (proj1 (proj2 (proj2 (proj2 (proj2 (proj2
             (greeks_edge_cases (Some 100) "CALL" 95 "2024-01-19")))))));
      reflexivity.
Defined.

(** The first smallest item splits the items it was chosen from. *)
Lemma min_by_key_split (key : R -> R) (items : list R) (best : R) :
  exists before after,
    best :: items = before ++ min_by_key key best items :: after
    /\ (forall y, In y before -> key (min_by_key key best items) < key y)
    /\ (forall y, In y after -> key (min_by_key key best items) <= key y).
Proof.
  revert best. induction items as [| x xs IH]; intros best; simpl.
  - exists [], []. repeat split; simpl; intros y [].
  - destruct (Rlt_dec (key x) (key best)) as [L | L].
    + destruct (IH x) as (b & a & E & Hb & Ha).
      exists (best :: b), a. split; [simpl; rewrite E; reflexivity |].
      split; [| exact Ha].
      intros y [<- | Hy]; [| apply Hb; exact Hy].
      destruct b as [| z b'].
      * simpl in E. injection E as E _. rewrite <- E. exact L.
      * simpl in E. injection E as E _. subst z.
        eapply Rlt_trans; [apply Hb; left; reflexivity | exact L].
    + destruct (IH best) as (b & a & E & Hb & Ha).
      destruct b as [| z b'].
      * simpl in E. injection E as E Exs.
        exists [], (x :: a). split; [simpl; rewrite <- E, Exs; reflexivity |].
        split; [intros y [] |].
        intros y [<- | Hy]; [rewrite <- E; lra | apply Ha; exact Hy].
      * simpl in E. injection E as E Exs. subst z.
        exists (best :: x :: b'), a.
        split; [simpl; do 2 f_equal; exact Exs |].
        split; [| exact Ha].
        intros y [<- | [<- | Hy]].
        -- apply Hb. left. reflexivity.
        -- assert (key (min_by_key key best xs) < key best)
             by (apply Hb; left; reflexivity).
           lra.
        -- apply Hb. right. exact Hy.
Qed.

(** X22.  The at-the-money strike is missing exactly when no price is
    known, the price is zero or there are no strikes; otherwise it is a
    listed strike at the least distance from the price, and the first of
    those in the order of the chain. *)
Theorem atm_strike_is_first_nearest (cp : option R) (strikes : list R) :
  (get_atm_strike cp strikes = None
   <-> cp = None \/ cp = Some 0 \/ strikes = [])
  /\ (forall price r,
        cp = Some price -> get_atm_strike cp strikes = Some r ->
        exists before after,
          strikes = before ++ r :: after
          /\ (forall y, In y before ->
                Rabs (r - price) < Rabs (y - price))
          /\ (forall y, In y after ->
                Rabs (r - price) <= Rabs (y - price))).
Proof.
  unfold get_atm_strike. split.
  - destruct cp as [price |]; [| split; auto].
    destruct (Req_dec_T price 0) as [-> | Hp]; [split; auto |].
    destruct strikes as [| x xs]; [split; auto |].
    split; [discriminate |].
    intros [H | [H | H]]; [discriminate | | discriminate].
    injection H as H. contradiction.
  - intros price r -> H.
    destruct (Req_dec_T price 0) as [_ | _]; [discriminate |].
    destruct strikes as [| x xs]; [discriminate |].
    injection H as <-.
    apply (min_by_key_split (fun x => Rabs (x - price)) xs x).
Qed.

Lemma atm_strike_is_first_nearest_witness :
  exists r before after,
    get_atm_strike (Some 100) [90; 95; 105; 110] = Some r
    /\ [90; 95; 105; 110] = before ++ r :: after
    /\ (forall y, In y before -> Rabs (r - 100) < Rabs (y - 100)).
Proof.
  assert (H : exists r, get_atm_strike (Some 100) [90; 95; 105; 110]
                        = Some r).
  { unfold get_atm_strike. destruct (Req_dec_T 100 0); [lra | eauto]. }
  destruct H as [r Hr].
  destruct (proj2 (atm_strike_is_first_nearest (Some 100)
                     [90; 95; 105; 110]) 100 r eq_refl Hr)
    as (b & a & E & Hb & _).
  exists r, b, a. split; [exact Hr |]. split; [exact E | exact Hb].
Defined.

(** ** Further properties: ticker symbols *)

Ltac by_all_chars c :=
  destruct c as [[] [] [] [] [] [] [] []]; vm_compute; reflexivity.

Lemma isspace_upper_char (c : ascii) : isspace (upper_char c) = isspace c.
Proof. by_all_chars c. Qed.

Lemma isalnum_upper_char (c : ascii) :
  isalnum_char (upper_char c) = isalnum_char c.
Proof. by_all_chars c. Qed.

Lemma upper_char_idempotent (c : ascii) :
  upper_char (upper_char c) = upper_char c.
Proof. by_all_chars c. Qed.

Lemma dot_upper_char (c : ascii) :
  Ascii.eqb (upper_char c) "."%char = Ascii.eqb c "."%char.
Proof. by_all_chars c. Qed.

Lemma isspace_dot (c : ascii) :
  Ascii.eqb c "."%char = true -> isspace c = false.
Proof. intros H. apply Ascii.eqb_eq in H. subst c. reflexivity. Qed.

Lemma upper_idempotent (s : string) : upper (upper s) = upper s.
Proof.
  induction s as [| c s IH]; simpl; [reflexivity |].
  rewrite upper_char_idempotent, IH. reflexivity.
Qed.

Lemma lstrip_upper (s : string) : lstrip (upper s) = upper (lstrip s).
Proof.
  induction s as [| c s IH]; simpl; [reflexivity |].
  rewrite isspace_upper_char. destruct (isspace c); [exact IH | reflexivity].
Qed.

Lemma rstrip_upper (s : string) : rstrip (upper s) = upper (rstrip s).
Proof.
  induction s as [| c s IH]; simpl; [reflexivity |].
  rewrite IH, isspace_upper_char.
  destruct (rstrip s); simpl; [destruct (isspace c) |]; reflexivity.
Qed.

Lemma strip_upper (s : string) : strip (upper s) = upper (strip s).
Proof. unfold strip. rewrite lstrip_upper. apply rstrip_upper. Qed.

Lemma lstrip_starts_clean (s : string) : starts_clean (lstrip s) = true.
Proof.
  induction s as [| c s IH]; simpl; [reflexivity |].
  destruct (isspace c) eqn:E; [exact IH |]. simpl. rewrite E. reflexivity.
Qed.

Lemma rstrip_starts_clean (s : string) :
  starts_clean s = true -> starts_clean (rstrip s) = true.
Proof.
  destruct s as [| c s]; simpl; [reflexivity |]. intros H.
  destruct (rstrip s); simpl; [| exact H].
  destruct (isspace c) eqn:E; [reflexivity |]. simpl. rewrite E. reflexivity.
Qed.

Lemma lstrip_clean (s : string) : starts_clean s = true -> lstrip s = s.
Proof.
  destruct s as [| c s]; simpl; [reflexivity |].
  destruct (isspace c); [discriminate | reflexivity].
Qed.

Lemma rstrip_idempotent (s : string) : rstrip (rstrip s) = rstrip s.
Proof.
  induction s as [| c s IH]; simpl; [reflexivity |].
  destruct (rstrip s) as [| d r] eqn:E.
  - destruct (isspace c) eqn:Ec; simpl; [reflexivity |].
    rewrite Ec. reflexivity.
  - simpl in IH |- *. rewrite IH. reflexivity.
Qed.

Lemma strip_idempotent (s : string) : strip (strip s) = strip s.
Proof.
  unfold strip. rewrite (lstrip_clean (rstrip (lstrip s))).
  - apply rstrip_idempotent.
  - apply rstrip_starts_clean, lstrip_starts_clean.
Qed.

Lemma all_alnum_upper (s : string) : all_alnum (upper s) = all_alnum s.
Proof.
  induction s as [| c s IH]; simpl; [reflexivity |].
  rewrite isalnum_upper_char, IH. reflexivity.
Qed.

Lemma isalnum_upper (s : string) : isalnum (upper s) = isalnum s.
Proof.
  destruct s as [| c s]; [reflexivity |].
  change (all_alnum (upper (String c s)) = all_alnum (String c s)).
  apply all_alnum_upper.
Qed.

Lemma contains_dot_upper (s : string) :
  contains_dot (upper s) = contains_dot s.
Proof.
  induction s as [| c s IH]; simpl; [reflexivity |].
  rewrite dot_upper_char, IH. reflexivity.
Qed.

Lemma contains_dot_lstrip (s : string) :
  contains_dot (lstrip s) = contains_dot s.
Proof.
  induction s as [| c s IH]; simpl; [reflexivity |].
  destruct (isspace c) eqn:E; [| reflexivity].
  rewrite IH. destruct (Ascii.eqb c ".") eqn:Ed; [| reflexivity].
  apply isspace_dot in Ed. congruence.
Qed.

Lemma contains_dot_rstrip (s : string) :
  contains_dot (rstrip s) = contains_dot s.
Proof.
  induction s as [| c s IH]; simpl; [reflexivity |].
  rewrite <- IH. destruct (rstrip s) as [| d r]; [| reflexivity].
  destruct (isspace c) eqn:E; simpl; [| reflexivity].
  destruct (Ascii.eqb c ".") eqn:Ed; [| reflexivity].
  apply isspace_dot in Ed. congruence.
Qed.

Lemma contains_dot_strip (s : string) : contains_dot (strip s) = contains_dot s.
Proof.
  unfold strip. rewrite contains_dot_rstrip. apply contains_dot_lstrip.
Qed.

(** What [validate_ticker] returns, and when. *)
Lemma validate_ticker_inv (t u : string) :
  validate_ticker t = Returned u ->
  t <> EmptyString /\ u = upper (strip t)
  /\ (isalnum u = true \/ contains_dot u = true).
Proof.
  unfold validate_ticker. destruct t as [| c t]; [discriminate |].
  set (v := upper (strip (String c t))).
  destruct (isalnum v) eqn:Ea; destruct (contains_dot v) eqn:Ed; simpl;
    intros H; try discriminate; injection H as <-;
    (split; [discriminate | split; [reflexivity | auto]]).
Qed.

Lemma validate_ticker_returns (t : string) :
  t <> EmptyString ->
  isalnum (upper (strip t)) = true \/ contains_dot (upper (strip t)) = true ->
  validate_ticker t = Returned (upper (strip t)).
Proof.
  intros Ht H. unfold validate_ticker.
  destruct t as [| c t]; [contradiction |].
  destruct H as [-> | ->]; [reflexivity |].
  rewrite andb_false_r. reflexivity.
Qed.

(** X23.  [validate_ticker] is idempotent: a ticker it returns is returned
    unchanged when validated again. *)
Theorem validate_ticker_idempotent (t u : string) :
  validate_ticker t = Returned u -> validate_ticker u = Returned u.
Proof.
  intros H. apply validate_ticker_inv in H as (_ & Eu & Hok).
  assert (Hfix : upper (strip u) = u).
  { rewrite Eu. rewrite strip_upper, upper_idempotent, strip_idempotent.
    reflexivity. }
  rewrite <- Hfix at 2. apply validate_ticker_returns.
  - intros ->. destruct Hok as [Hok | Hok]; discriminate Hok.
  - rewrite Hfix. exact Hok.
Qed.

Lemma validate_ticker_idempotent_witness :
  validate_ticker "  msft  " = Returned "MSFT"%string
  /\ validate_ticker "MSFT" = Returned "MSFT"%string.
Proof.
  split; [reflexivity |].
  apply (validate_ticker_idempotent "  msft  " "MSFT"). reflexivity.
Defined.

(** X24.  Every ticker that contains a dot is accepted, whatever else it
    contains: the result is the ticker stripped and in upper case, and
    no [ValueError] is raised. *)
Theorem validate_ticker_accepts_any_dot (t : string) :
  contains_dot t = true ->
  validate_ticker t = Returned (upper (strip t)).
Proof.
  intros H. apply validate_ticker_returns.
  - intros ->. discriminate H.
  - right. rewrite contains_dot_upper, contains_dot_strip. exact H.
Qed.

Lemma validate_ticker_accepts_any_dot_witness :
  validate_ticker "brk.b" = Returned "BRK.B"%string
  /\ validate_ticker " $ not a ticker. " = Returned "$ NOT A TICKER."%string.
Proof.
  split.
  - apply (validate_ticker_accepts_any_dot "brk.b"). reflexivity.
  - apply (validate_ticker_accepts_any_dot " $ not a ticker. "). reflexivity.
Defined.

(** X25.  A returned ticker is never empty, carries no white space at
    either end and no lower-case letter, and is alphanumeric throughout
    unless it contains a dot.  The empty ticker is refused as empty; a
    ticker of white space only is refused as badly formatted, with an
    empty symbol in the message. *)
Theorem validate_ticker_normalises (t : string) :
  (forall u,
      validate_ticker t = Returned u ->
      u <> EmptyString /\ strip u = u /\ upper u = u
      /\ (all_alnum u = true \/ contains_dot u = true))
  /\ (t = EmptyString ->
      validate_ticker t = ValueError "Ticker cannot be empty")
  /\ (t <> EmptyString -> strip t = EmptyString ->
      validate_ticker t = ValueError "Invalid ticker format: ").
Proof.
  split; [| split].
  - intros u H. apply validate_ticker_inv in H as (_ & Eu & Hok).
    split.
    { intros ->. destruct Hok as [Hok | Hok]; discriminate Hok. }
    split.
    { rewrite Eu, strip_upper, strip_idempotent. reflexivity. }
    split.
    { rewrite Eu. apply upper_idempotent. }
    destruct Hok as [Hok | Hok]; [left | right; exact Hok].
    destruct u; [discriminate Hok | exact Hok].
  - intros ->. reflexivity.
  - intros Ht Hs. unfold validate_ticker.
    destruct t as [| c t]; [contradiction |]. rewrite Hs. reflexivity.
Qed.

Lemma validate_ticker_normalises_witness :
  validate_ticker "   " = ValueError "Invalid ticker format: "
  /\ validate_ticker "" = ValueError "Ticker cannot be empty"
  /\ upper "AAPL" = "AAPL"%string.
Proof.
  split; [| split].
  - apply (proj2 (proj2 (validate_ticker_normalises "   ")));
      [discriminate | reflexivity].
  - apply (proj1 (proj2 (validate_ticker_normalises ""))). reflexivity.
  - apply (proj1 (validate_ticker_normalises "aapl") "AAPL"%string).
    reflexivity.
Defined.

(** ** Further properties: the monthly expiration *)

(** Within the first 28 days of a month, adding days moves the day
    alone. *)
Lemma add_days_within_month (k : nat) (d : Datetime.t) :
  (Datetime.day d + Z.of_nat k <= 28)%Z ->
  add_days k d
  = Datetime.mk (Datetime.year d) (Datetime.month d)
      (Datetime.day d + Z.of_nat k) (Datetime.time_of_day d).
Proof.
  revert d. induction k as [| k IH]; intros d H.
  - simpl. rewrite Z.add_0_r. destruct d; reflexivity.
  - simpl add_days. unfold next_day.
    assert (Hm : (28 <= days_in_month (Datetime.year d)
                          (Datetime.month d))%Z).
    { unfold days_in_month.
      destruct (Datetime.month d =? 2)%Z;
        [destruct (is_leap (Datetime.year d)); lia |].
      destruct ((Datetime.month d =? 4) || (Datetime.month d =? 6)
                || (Datetime.month d =? 9) || (Datetime.month d =? 11))%Z;
        lia. }
    destruct (Z.ltb_spec (Datetime.day d)
                (days_in_month (Datetime.year d) (Datetime.month d)))
      as [_ | Hge]; [| lia].
    rewrite IH by (simpl; lia). simpl. f_equal. lia.
Qed.

(** X26.  From a base date in a month before December 9999, the next
    monthly expiration is returned: a Friday, on a day 15 to 21 of the
    month after the base date's (January of the next year after a
    December), at the base date's time of day.  The base date's own
    month is never used.  December 9999 raises [ValueError]. *)
Theorem next_monthly_expiration_is_third_friday
    (now : Datetime.t) (base_date : option Datetime.t) (b : Datetime.t) :
  b = match base_date with None => now | Some d => d end ->
  (1 <= Datetime.month b <= 12)%Z ->
  ((Datetime.month b < 12 \/ Datetime.year b < 9999)%Z ->
   exists r,
     get_next_monthly_expiration now base_date = Returned r
     /\ weekday r = 4%Z
     /\ (15 <= Datetime.day r <= 21)%Z
     /\ Datetime.month r = (Datetime.month b mod 12 + 1)%Z
     /\ Datetime.year r
        = (if (Datetime.month b =? 12)%Z then Datetime.year b + 1
           else Datetime.year b)%Z
     /\ Datetime.time_of_day r = Datetime.time_of_day b)
  /\ (Datetime.month b = 12%Z -> Datetime.year b = 9999%Z ->
      get_next_monthly_expiration now base_date
      = ValueError "year 10000 is out of range").
Proof.
  intros Hb Hm. unfold get_next_monthly_expiration. rewrite <- Hb.
  split.
  - intros Hy.
    set (first :=
           if (Datetime.month b =? 12)%Z
           then Datetime.mk (Datetime.year b + 1) 1 1 (Datetime.time_of_day b)
           else Datetime.mk (Datetime.year b) (Datetime.month b + 1) 1
                  (Datetime.time_of_day b)).
    assert (Hrep :
      (if (Datetime.month b =? 12)%Z then
         if (Datetime.year b + 1 >? 9999)%Z
         then ValueError "year 10000 is out of range"
         else Returned (Datetime.mk (Datetime.year b + 1) 1 1
                          (Datetime.time_of_day b))
       else Returned (Datetime.mk (Datetime.year b) (Datetime.month b + 1) 1
                        (Datetime.time_of_day b)))
      = Returned first).
    { unfold first. destruct (Z.eqb_spec (Datetime.month b) 12) as [E | E];
        [| reflexivity].
      destruct (Z.gtb_spec (Datetime.year b + 1) 9999); [lia | reflexivity]. }
    rewrite Hrep.
    assert (Hday : Datetime.day first = 1%Z)
      by (unfold first; destruct (Datetime.month b =? 12)%Z; reflexivity).
    set (k := ((4 - weekday first) mod 7 + 14)%Z).
    assert (Hk : (14 <= k <= 20)%Z).
    { unfold k. pose proof (Z.mod_pos_bound (4 - weekday first) 7). lia. }
    eexists. split; [reflexivity |].
    rewrite add_days_within_month by (rewrite Hday, Z2Nat.id; lia).
    rewrite Z2Nat.id by lia. rewrite Hday.
    split.
    { unfold k, weekday, toordinal.
      cbn [Datetime.year Datetime.month Datetime.day]. rewrite Hday.
      set (o := (days_before_year (Datetime.year first)
                 + days_before_month (Datetime.year first)
                     (Datetime.month first))%Z).
      clearbody o. clear.
      pose proof (Z.mod_pos_bound (o + 1 + 6) 7).
      pose proof (Z.mod_pos_bound (4 - (o + 1 + 6) mod 7) 7).
      pose proof (Z.div_mod (o + 1 + 6) 7).
      pose proof (Z.div_mod (4 - (o + 1 + 6) mod 7) 7).
      pose proof (Z.div_mod
                    (o + (1 + ((4 - (o + 1 + 6) mod 7) mod 7 + 14)) + 6) 7).
      pose proof (Z.mod_pos_bound
                    (o + (1 + ((4 - (o + 1 + 6) mod 7) mod 7 + 14)) + 6) 7).
      lia. }
    cbn [Datetime.year Datetime.month Datetime.day Datetime.time_of_day].
    split; [lia |].
    unfold first. destruct (Z.eqb_spec (Datetime.month b) 12) as [E | E];
      cbn [Datetime.year Datetime.month Datetime.day Datetime.time_of_day].
    + rewrite E. repeat split; reflexivity.
    + rewrite Z.mod_small by lia. repeat split; reflexivity.
  - intros E12 E9999. rewrite E12, E9999. reflexivity.
Qed.

Lemma next_monthly_expiration_is_third_friday_witness :
  exists r,
    get_next_monthly_expiration (Datetime.mk 2024 1 1 0)
      (Some (Datetime.mk 2024 12 25 0)) = Returned r
    /\ weekday r = 4%Z
    /\ (15 <= Datetime.day r <= 21)%Z.
Proof.
  destruct (proj1 (next_monthly_expiration_is_third_friday
                     (Datetime.mk 2024 1 1 0)
                     (Some (Datetime.mk 2024 12 25 0))
                     (Datetime.mk 2024 12 25 0) eq_refl
                     ltac:(simpl; lia)))
    as (r & Hr & Hw & Hd & _); [simpl; lia |].
  exists r. split; [exact Hr |]. split; [exact Hw | exact Hd].
Defined.

(** ** Further properties: the covered call's parts *)


